(** * Email deliverability verifier: a shallow embedding of
      [src/email_verifier.py] and the properties of its pipeline.

    Python strings are modelled as [string] over code points below 256
    (Latin-1); reply codes are integers in [Z]; a company record (a row of
    [csv.DictReader]) is a [gmap string string]; exceptions and the I/O the
    code performs (DNS queries, SMTP commands) are explicit, in a small
    monad that carries the trace of calls and either a value or the raised
    exception. *)

From Stdlib Require Import ZArith NArith Lia Ascii Permutation.
From stdpp Require Import base gmap strings list.

Local Open Scope Z_scope.

(** ** Python string operations *)

Module PyStr.

Definition code (c : ascii) : N := N_of_ascii c.

Definition in_range (lo hi : N) (c : ascii) : bool :=
  ((lo <=? code c) && (code c <=? hi))%N.

(** [str.isspace] on one code point below 256. *)
Definition isspace (c : ascii) : bool :=
  in_range 9 13 c || in_range 28 32 c
  || (code c =? 133)%N || (code c =? 160)%N.

(** Code points below 256 that [str.lower] changes: A-Z and the
    Latin-1 capitals U+00C0..U+00DE, the multiplication sign apart. *)
Definition isupper (c : ascii) : bool :=
  in_range 65 90 c
  || (in_range 192 222 c && negb (code c =? 215)%N).

Definition lower_char (c : ascii) : ascii :=
  if isupper c then ascii_of_N (code c + 32) else c.

(** [s.lower()] *)
Fixpoint lower (s : string) : string :=
  match s with
  | EmptyString => EmptyString
  | String c s' => String (lower_char c) (lower s')
  end.

(** [s.lstrip()] *)
Fixpoint lstrip (s : string) : string :=
  match s with
  | EmptyString => EmptyString
  | String c s' => if isspace c then lstrip s' else s
  end.

(** [s.rstrip()] *)
Fixpoint rstrip (s : string) : string :=
  match s with
  | EmptyString => EmptyString
  | String c s' =>
      match rstrip s' with
      | EmptyString => if isspace c then EmptyString else String c EmptyString
      | t => String c t
      end
  end.

(** [s.strip()] *)
Definition strip (s : string) : string := rstrip (lstrip s).

(** [c in s] for a one-character [c]. *)
Fixpoint has_char (c : ascii) (s : string) : bool :=
  match s with
  | EmptyString => false
  | String a s' => Ascii.eqb a c || has_char c s'
  end.

(** [s.count(c)] for a one-character [c]. *)
Fixpoint count_char (c : ascii) (s : string) : nat :=
  match s with
  | EmptyString => O
  | String a s' => ((if Ascii.eqb a c then 1 else 0) + count_char c s')%nat
  end.

(** [s.split(sep)] for a one-character separator: never empty. *)
Fixpoint split (sep : ascii) (s : string) : list string :=
  match s with
  | EmptyString => [EmptyString]
  | String a s' =>
      if Ascii.eqb a sep then EmptyString :: split sep s'
      else match split sep s' with
           | h :: t => String a h :: t
           | [] => [String a EmptyString]
           end
  end.

(** [s.startswith(t)] *)
Fixpoint startswith (s t : string) {struct t} : bool :=
  match t, s with
  | EmptyString, _ => true
  | String b t', String a s' => Ascii.eqb a b && startswith s' t'
  | String _ _, EmptyString => false
  end.

(** [t in s]: [t] occurs in [s] as a substring. *)
Fixpoint contains (s t : string) : bool :=
  startswith s t
  || match s with
     | EmptyString => false
     | String _ s' => contains s' t
     end.

(** [s.endswith(t)] *)
Fixpoint endswith (s t : string) : bool :=
  String.eqb s t
  || match s with
     | EmptyString => false
     | String _ s' => endswith s' t
     end.

(** Every character of [s] satisfies [p]. *)
Fixpoint all_chars (p : ascii -> bool) (s : string) : bool :=
  match s with
  | EmptyString => true
  | String a s' => p a && all_chars p s'
  end.

(** A string that does not start with white space. *)
Definition no_leading_space (s : string) : Prop :=
  match s with
  | EmptyString => True
  | String c _ => isspace c = false
  end.

(** [not s]: the empty string is falsy. *)
Definition falsy (s : string) : bool :=
  match s with EmptyString => true | _ => false end.

End PyStr.

(** ** Regular expressions, as far as the source's pattern needs them *)

Module Regex.

Inductive re : Type :=
| Void : re
| Eps : re
| Cls : (ascii -> bool) -> re
| Cat : re -> re -> re
| Alt : re -> re -> re
| Star : re -> re.

(** [r+] and [r{2,}] *)
Definition Plus (r : re) : re := Cat r (Star r).
Definition AtLeast2 (r : re) : re := Cat r (Cat r (Star r)).

Fixpoint nullable (r : re) : bool :=
  match r with
  | Void => false
  | Eps => true
  | Cls _ => false
  | Cat r1 r2 => nullable r1 && nullable r2
  | Alt r1 r2 => nullable r1 || nullable r2
  | Star _ => true
  end.

Fixpoint deriv (a : ascii) (r : re) : re :=
  match r with
  | Void => Void
  | Eps => Void
  | Cls p => if p a then Eps else Void
  | Cat r1 r2 =>
      if nullable r1 then Alt (Cat (deriv a r1) r2) (deriv a r2)
      else Cat (deriv a r1) r2
  | Alt r1 r2 => Alt (deriv a r1) (deriv a r2)
  | Star r1 => Cat (deriv a r1) (Star r1)
  end.

(** The whole of [s] is a word of [r]. *)
Fixpoint fullmatch (r : re) (s : string) : bool :=
  match s with
  | EmptyString => nullable r
  | String a s' => fullmatch (deriv a r) s'
  end.

(** The words of [r]. *)
Inductive lang : re -> string -> Prop :=
| L_eps : lang Eps ""
| L_cls p a : p a = true -> lang (Cls p) (String a "")
| L_cat r1 r2 s1 s2 : lang r1 s1 -> lang r2 s2 -> lang (Cat r1 r2) (s1 +:+ s2)
| L_alt_l r1 r2 s : lang r1 s -> lang (Alt r1 r2) s
| L_alt_r r1 r2 s : lang r2 s -> lang (Alt r1 r2) s
| L_star_nil r : lang (Star r) ""
| L_star_cons r s1 s2 : lang r s1 -> lang (Star r) s2 -> lang (Star r) (s1 +:+ s2).

End Regex.

(** ** Exceptions, I/O events and the monad of the model *)

(** The exceptions the modelled code can meet; all of them are subclasses of
    Python's [Exception], so every [except Exception] catches them. *)
Inductive exn : Type :=
| IndexError
| ZeroDivisionError
| DNSException
| SMTPException
| OSError
| RuntimeError.

Inductive res (A : Type) : Type :=
| Ok (a : A)
| Raise (e : exn).
Arguments Ok {A} a.
Arguments Raise {A} e.

Inductive rdtype : Type := RdA | RdMX.

Inductive smtp_verb : Type := HELO | MAIL | RCPT | DATA | QUIT.

(** What the code asks of the network: [resolver.resolve], [server.connect]
    and the commands [smtplib] writes on the connection. *)
Inductive event : Type :=
| DnsQuery (qname : string) (rd : rdtype)
| SmtpConnect (host : string) (port : Z)
| SmtpCmd (v : smtp_verb) (arg : string).

(** A computation: the calls it made, in order, and how it ended. *)
Definition M (A : Type) : Type := (list event * res A)%type.

Definition trace {A} (m : M A) : list event := fst m.
Definition outcome {A} (m : M A) : res A := snd m.

Global Instance M_ret : MRet M := λ A a, ([], Ok a).

Global Instance M_bind : MBind M := λ A B f m,
  match m with
  | (t, Ok a) => let '(t', r) := f a in (t ++ t', r)
  | (t, Raise e) => (t, Raise e)
  end.

Definition raise {A} (e : exn) : M A := ([], Raise e).

(** [try: m  except Exception as e: h e] *)
Definition try_except {A} (m : M A) (h : exn → M A) : M A :=
  match m with
  | (t, Raise e) => let '(t', r) := h e in (t ++ t', r)
  | (t, Ok a) => (t, Ok a)
  end.

(** [m] after the calls of [t]. *)
Definition prepend {A} (t : list event) (m : M A) : M A :=
  (t ++ trace m, outcome m).

(** One call to the outside: it is recorded, and returns or raises. *)
Definition call {A} (e : event) (r : res A) : M A := ([e], r).

(** [l[i]] *)
Definition index {A} (l : list A) (i : nat) : M A :=
  match l !! i with
  | Some x => mret x
  | None => raise IndexError
  end.

(** The network as the verifier sees it. [dns_resolve] is
    [resolver.resolve(qname, rdtype)]: the answer's records (for MX, their
    exchange hosts) or an exception (NXDOMAIN, no answer, timeout).
    [smtp_connect] is [server.connect(host, port)] and [smtp_reply] the
    reply code to a command, or the exception [smtplib] raises (timeout,
    disconnect, protocol error). [worker_fault k] is an exception raised in
    the pool thread that runs batch [k], outside the handlers of
    [verify_email_batch]. *)
Record Env : Type := {
  dns_resolve : string → rdtype → res (list string);
  smtp_connect : string → Z → res Z;
  smtp_reply : string → smtp_verb → string → res Z;
  worker_fault : nat → option exn
}.

(** ** The verifier *)

Record EmailVerifier : Type := {
  sending_domain : string;
  verified_count : nat;
  bad_count : nat;
  companies : list (gmap string string)
}.

Definition disposable_domains : gset string :=
  {[ "10minutemail.com"; "guerrillamail.com"; "mailinator.com";
     "tempmail.org"; "throwaway.email"; "example.com"; "test.com" ]}.

(** A Python set; the code only iterates over it inside [any], so the order
    of the list does not matter. *)
Definition trusted_turkish_domains : list string :=
  [ "gmail.com"; "hotmail.com"; "yahoo.com"; "outlook.com";
    "turk.net"; "superonline.com"; "mynet.com"; "ttnet.net.tr";
    "com.tr"; "net.tr"; "org.tr"; "info.tr"; "biz.tr" ].

(** [EmailVerifier(sending_domain)] *)
Definition new_verifier (sending : string) : EmailVerifier :=
  {| sending_domain := sending; verified_count := 0; bad_count := 0;
     companies := [] |}.

Section Pattern.
Import PyStr Regex.

Definition is_letter (c : ascii) : bool :=
  in_range 97 122 c || in_range 65 90 c.
Definition is_digit (c : ascii) : bool := in_range 48 57 c.

(** [[a-zA-Z0-9._%+-]] *)
Definition local_class (c : ascii) : bool :=
  is_letter c || is_digit c || has_char c "._%+-".
(** [[a-zA-Z0-9.-]] *)
Definition domain_class (c : ascii) : bool :=
  is_letter c || is_digit c || has_char c ".-".

Definition is_char (a : ascii) (c : ascii) : bool := Ascii.eqb c a.

(** [[a-zA-Z0-9._%+-]+@[a-zA-Z0-9.-]+\.[a-zA-Z]{2,}] *)
Definition email_body : re :=
  Cat (Plus (Cls local_class))
    (Cat (Cls (is_char "@"))
       (Cat (Plus (Cls domain_class))
          (Cat (Cls (is_char "."))
             (AtLeast2 (Cls is_letter))))).

(** [$] matches at the end of the string and just before a newline that
    ends the string; [re.match] anchors the start. So [^body$] matches
    when the whole string is a word of [body], optionally followed by one
    newline. *)
Definition email_pattern : re :=
  Cat email_body (Alt Eps (Cls (is_char "010"))).

Definition validate_email_format (email : string) : bool :=
  fullmatch email_pattern (lower email).
End Pattern.

(** [[company.get('email', '') for company in companies]] *)
Definition emails_of (cs : list (gmap string string)) : list string :=
  (λ company, default "" (company !! "email")) <$> cs.

Section Verifier.
Import PyStr.
Variable env : Env.
Variable self : EmailVerifier.

Definition resolve (domain : string) (rd : rdtype) : M (list string) :=
  call (DnsQuery domain rd) (dns_resolve env domain rd).

Definition check_domain_mx_record (domain : string) : M bool :=
  try_except
    (mx_records ← resolve domain RdMX;
     mret (0 <? length mx_records)%nat)
    (λ _, mret false).

Definition check_domain_exists (domain : string) : M bool :=
  try_except
    (a_records ← resolve domain RdA;
     mret (0 <? length a_records)%nat)
    (λ _, mret false).

Definition server_connect (host : string) (port : Z) : M Z :=
  call (SmtpConnect host port) (smtp_connect env host port).

Definition server_cmd (host : string) (v : smtp_verb) (arg : string) : M Z :=
  call (SmtpCmd v arg) (smtp_reply env host v arg).

Definition test_smtp_connection (email : string) : M bool :=
  domain ← index (split "@" email) 1;
  try_except
    (mx_records ← resolve domain RdMX;
     mx_record ← index mx_records 0;
     _ ← server_connect mx_record 25;
     _ ← server_cmd mx_record HELO (sending_domain self);
     code ← server_cmd mx_record MAIL ("test@" +:+ sending_domain self);
     if negb (code =? 250) then
       _ ← server_cmd mx_record QUIT "";
       mret false
     else
       code ← server_cmd mx_record RCPT email;
       _ ← server_cmd mx_record QUIT "";
       mret ((code =? 250) || (code =? 251)))
    (λ _, mret false).

(** The first test of [check_domain_reputation]:
    [any(trusted in domain for trusted in self.trusted_turkish_domains)] *)
Definition is_trusted (domain : string) : bool :=
  existsb (λ trusted, contains domain trusted) trusted_turkish_domains.

Definition check_domain_reputation (domain : string) : M bool :=
  try_except
    (if is_trusted domain then mret true
     else if bool_decide (domain ∈ disposable_domains) then mret false
     else check_domain_exists domain)
    (λ _, mret false).

Definition verify_email_comprehensive (email : string) : M string :=
  if falsy email || negb (has_char "@" email) then mret "BAD"
  else
    let email := strip (lower email) in
    domain ← index (split "@" email) 1;
    if negb (validate_email_format email) then mret "BAD"
    else
      exists_ ← check_domain_exists domain;
      if negb exists_ then mret "BAD"
      else
        has_mx ← check_domain_mx_record domain;
        if negb has_mx then mret "BAD"
        else
          reputable ← check_domain_reputation domain;
          if negb reputable then mret "BAD"
          else
            try_except
              (accepted ← test_smtp_connection email;
               if (accepted : bool) then mret "200" else mret "BAD")
              (λ _, mret "200").

(** The loop of [verify_email_batch], [results] being the list built so
    far. The pause between two addresses performs no call. *)
Fixpoint verify_email_batch_from (results : list string)
    (emails_batch : list string) : M (list string) :=
  match emails_batch with
  | [] => mret results
  | email :: rest =>
      results' ← try_except
                   (result ← verify_email_comprehensive email;
                    mret (results ++ [result]))
                   (λ _, mret (results ++ ["BAD"]));
      verify_email_batch_from results' rest
  end.

Definition verify_email_batch (emails_batch : list string) : M (list string) :=
  verify_email_batch_from [] emails_batch.

Definition batch_size : nat := 50.

(** [range(0, stop, step)] *)
Definition range_step (stop step : nat) : list nat :=
  (λ k, k * step)%nat <$> seq 0 ((stop + step - 1) / step)%nat.

(** [[emails[i:i + batch_size] for i in range(0, len(emails), batch_size)]] *)
Definition make_batches (emails : list string) : list (list string) :=
  (λ i, take batch_size (drop i emails)) <$> range_step (length emails) batch_size.

(** [future.result()] for the future of batch [k]. *)
Definition future_result (k : nat) (batch : list string) : res (list string) :=
  match worker_fault env k with
  | Some e => Raise e
  | None => outcome (verify_email_batch batch)
  end.

(** The loop over [as_completed(future_to_batch)]: [order] lists the
    batch numbers in the order in which their futures complete. *)
Fixpoint collect_results (batches : list (list string)) (order : list nat)
    (all_results : list string) : list string :=
  match order with
  | [] => all_results
  | k :: rest =>
      let batch := default [] (batches !! k) in
      let all_results' :=
        match future_result k batch with
        | Ok batch_results => all_results ++ batch_results
        | Raise _ => all_results ++ replicate (length batch) "BAD"
        end in
      collect_results batches rest all_results'
  end.

(** The loop that writes the verdicts into the records. *)
Definition annotate (all_results : list string)
    (cs : list (gmap string string)) : list (gmap string string) :=
  imap (λ i company,
          if (i <? length all_results)%nat
          then <["email_verification" := nth i all_results ""]> company
          else <["email_verification" := "BAD"]> company) cs.

Definition count_equal (v : string) (l : list string) : nat :=
  length (List.filter (String.eqb v) l).

(** [verify_all_emails]: the state of the verifier when the call ends,
    and the value returned or the exception that escapes. Of the success
    rate only the division matters: it raises on a zero divisor. *)
Definition verify_all_emails (order : list nat)
    : EmailVerifier * res (list (gmap string string)) :=
  let emails := emails_of (companies self) in
  let batches := make_batches emails in
  let all_results := collect_results batches order [] in
  let companies' := annotate all_results (companies self) in
  let verified := count_equal "200" all_results in
  let bad := count_equal "BAD" all_results in
  let self' := {| sending_domain := sending_domain self;
                  verified_count := verified;
                  bad_count := bad;
                  companies := companies' |} in
  if (length all_results =? 0)%nat then (self', Raise ZeroDivisionError)
  else (self', Ok companies').

End Verifier.

(** ** Auxiliary notions used in the statements *)

(** [len(records) > 0], and [False] when the lookup raised. *)
Definition has_records (r : res (list string)) : bool :=
  match r with
  | Ok l => (0 <? length l)%nat
  | Raise _ => false
  end.

(** The SMTP commands of a trace, in order. *)
Fixpoint smtp_verbs (t : list event) : list smtp_verb :=
  match t with
  | [] => []
  | SmtpCmd v _ :: t' => v :: smtp_verbs t'
  | _ :: t' => smtp_verbs t'
  end.

(** The verdict [verify_email_batch] records for one address. *)
Definition verdict (env : Env) (self : EmailVerifier) (email : string) : string :=
  match outcome (verify_email_comprehensive env self email) with
  | Ok v => v
  | Raise _ => "BAD"
  end.

(** What the loop over the completed futures appends for batch [k]. *)
Definition batch_outcome (env : Env) (self : EmailVerifier)
    (batches : list (list string)) (k : nat) : list string :=
  let batch := default [] (batches !! k) in
  match future_result env self k batch with
  | Ok batch_results => batch_results
  | Raise _ => replicate (length batch) "BAD"
  end.

(** The two tokens of the verdict vocabulary. *)
Definition is_verdict (v : string) : Prop := v = "200" ∨ v = "BAD".

(** [self.companies = list(reader)], the effect of [load_companies_from_csv]. *)
Definition load_companies (rows : list (gmap string string))
    (self : EmailVerifier) : EmailVerifier :=
  {| sending_domain := sending_domain self;
     verified_count := verified_count self;
     bad_count := bad_count self;
     companies := rows |}.

(** ** Concrete environments and inputs *)

(** Only [gmail.com] resolves. *)
Definition gmail_dns (qname : string) (rd : rdtype) : res (list string) :=
  if String.eqb qname "gmail.com" then
    match rd with
    | RdA => Ok ["142.250.102.17"]
    | RdMX => Ok ["gmail-smtp-in.l.google.com"]
    end
  else Raise DNSException.

(** The mail server answers 250 to everything. *)
Definition env_accepting : Env :=
  {| dns_resolve := gmail_dns;
     smtp_connect := λ _ _, Ok 220;
     smtp_reply := λ _ _ _, Ok 250;
     worker_fault := λ _, None |}.

(** The mail server cannot be reached: [connect] raises. *)
Definition env_unreachable : Env :=
  {| dns_resolve := gmail_dns;
     smtp_connect := λ _ _, Raise OSError;
     smtp_reply := λ _ _ _, Raise SMTPException;
     worker_fault := λ _, None |}.

(** The mail server refuses the sender: 550 to MAIL FROM. *)
Definition env_sender_refused : Env :=
  {| dns_resolve := gmail_dns;
     smtp_connect := λ _ _, Ok 220;
     smtp_reply := λ _ v _, match v with MAIL => Ok 550 | _ => Ok 250 end;
     worker_fault := λ _, None |}.

(** As [env_accepting], but the thread of the first batch dies. *)
Definition env_first_batch_fails : Env :=
  {| dns_resolve := gmail_dns;
     smtp_connect := λ _ _, Ok 220;
     smtp_reply := λ _ _ _, Ok 250;
     worker_fault := λ k, if (k =? 0)%nat then Some RuntimeError else None |}.

Definition default_verifier : EmailVerifier := new_verifier "gatesweb.top".

Definition company_of (name email : string) : gmap string string :=
  {[ "name" := name; "email" := email ]}.

(** Fifty-one records, two batches: fifty addresses without [@], then one
    deliverable address. *)
Definition fifty_one_companies : list (gmap string string) :=
  replicate 50 (company_of "Emlak A" "not-an-email")
  ++ [company_of "Emlak B" "info@gmail.com"].

Definition verifier_51 : EmailVerifier :=
  load_companies fifty_one_companies default_verifier.

(** The verification field of record [i] after a run. *)
Definition verification_at (i : nat) (run : EmailVerifier * res (list (gmap string string)))
    : option string :=
  companies (fst run) !! i ≫= (λ company, company !! "email_verification").

(** The mail server accepts everything, then drops the connection: the
    closing QUIT raises. *)
Definition env_quit_fails : Env :=
  {| dns_resolve := gmail_dns;
     smtp_connect := λ _ _, Ok 220;
     smtp_reply := λ _ v _, match v with
                            | QUIT => Raise SMTPException
                            | _ => Ok 250
                            end;
     worker_fault := λ _, None |}.

(** A record that was verified before and carries "200" from that run,
    with an address that is rejected, and a verifier that holds it. *)
Definition verified_before : gmap string string :=
  <["email_verification" := "200"]> (company_of "Emlak A" "not-an-email").

Definition verifier_again : EmailVerifier :=
  load_companies [verified_before] default_verifier.

(** ** Further notions for the rest of the verifier *)

(** The events of a trace that touch a mail server. *)
Definition is_smtp_event (e : event) : bool :=
  match e with
  | DnsQuery _ _ => false
  | SmtpConnect _ _ => true
  | SmtpCmd _ _ => true
  end.

(** [filter_verified_companies] *)
Definition filter_verified_companies (self : EmailVerifier)
    : list (gmap string string) :=
  filter (λ company, company !! "email_verification" = Some "200")
    (companies self).

(** The dictionary of [get_verification_statistics]. The success rate is a
    float; the model keeps the two integers it is computed from, the
    dividend and the divisor of [verified_count / len(companies)], whose
    quotient the code multiplies by 100. *)
Record Statistics : Type := {
  total_companies : nat;
  verified_emails : nat;
  bad_emails : nat;
  success_rate : nat * nat;
  needs_expansion : bool
}.

(** [get_verification_statistics]; [None] is the empty dictionary. *)
Definition get_verification_statistics (self : EmailVerifier)
    : option Statistics :=
  match companies self with
  | [] => None
  | _ :: _ =>
      Some {| total_companies := length (companies self);
              verified_emails := verified_count self;
              bad_emails := bad_count self;
              success_rate := (verified_count self, length (companies self));
              needs_expansion := (verified_count self <? 1000)%nat |}
  end.

(** The columns of the verified file, in [save_verified_csv]. *)
Definition column_order : list string :=
  [ "name"; "phone"; "website"; "email"; "email_verification";
    "founder"; "district"; "source"; "email_source" ].

(** What can go wrong when saving: [open] fails, or [csv.DictWriter]
    meets a record with a field that is not one of its field names. *)
Inductive save_exn : Type :=
| OpenFailed
| ValueError.

(** The files written, by name: each holds the rows of fields handed to
    the csv writer, the header first. *)
Definition disk : Type := gmap string (list (list string)).

(** How [save_verified_csv] ends: it returned [None] and wrote nothing, it
    returned the file name and left the disk as given, or it raised (what
    the file then holds is left open). *)
Inductive save_result : Type :=
| NothingToSave
| Saved (filename : string) (after : disk)
| SaveRaised (e : save_exn).

(** [DictWriter._dict_to_list]: the row of a record, or [None] for the
    ValueError on a field outside the field names; a missing field is
    written as the empty string. *)
Definition dict_to_list (fieldnames : list string) (rowdict : gmap string string)
    : option (list string) :=
  if bool_decide (dom rowdict ⊆ list_to_set fieldnames)
  then Some ((λ key, default "" (rowdict !! key)) <$> fieldnames)
  else None.

(** [save_verified_csv]; [writable] tells whether [open(filename, 'w')]
    succeeds. *)
Definition save_verified_csv (writable : string → bool) (files : disk)
    (self : EmailVerifier) (filename : string) : save_result :=
  match companies self with
  | [] => NothingToSave
  | _ :: _ =>
      if negb (writable filename) then SaveRaised OpenFailed
      else match mapM (dict_to_list column_order) (companies self) with
           | Some rows => Saved filename (<[filename := column_order :: rows]> files)
           | None => SaveRaised ValueError
           end
  end.

(** * Properties *)

(** ** Strings *)

Section StringFacts.
Import PyStr.

Ltac by_cases_on_char c :=
  destruct c as [[] [] [] [] [] [] [] []]; vm_compute; congruence.

Lemma app_empty_l (s : string) : "" +:+ s = s.
Proof. reflexivity. Qed.

Lemma app_cons (a : ascii) (s t : string) :
  String a s +:+ t = String a (s +:+ t).
Proof. reflexivity. Qed.

Lemma app_empty_r (s : string) : s +:+ "" = s.
Proof. induction s as [|a s IH]; [done|]. by rewrite app_cons, IH. Qed.

Lemma app_assoc_str (s t u : string) : (s +:+ t) +:+ u = s +:+ t +:+ u.
Proof. induction s as [|a s IH]; [done|]. by rewrite !app_cons, IH. Qed.

Lemma lower_char_idem c : lower_char (lower_char c) = lower_char c.
Proof. by_cases_on_char c. Qed.

Lemma isspace_lower_char c : isspace (lower_char c) = isspace c.
Proof. by_cases_on_char c. Qed.

Lemma lower_char_is_at c : Ascii.eqb (lower_char c) "@" = Ascii.eqb c "@".
Proof. by_cases_on_char c. Qed.

Lemma lower_char_is_dot c : Ascii.eqb (lower_char c) "." = Ascii.eqb c ".".
Proof. by_cases_on_char c. Qed.

Lemma lower_idem s : lower (lower s) = lower s.
Proof.
  induction s as [|c s IH]; simpl; [done|].
  by rewrite lower_char_idem, IH.
Qed.

Lemma lower_app s t : lower (s +:+ t) = lower s +:+ lower t.
Proof. induction s as [|c s IH]; [done|]. rewrite app_cons. simpl. by rewrite IH. Qed.

Lemma lstrip_lower s : lstrip (lower s) = lower (lstrip s).
Proof.
  induction s as [|c s IH]; simpl; [done|].
  rewrite isspace_lower_char. by destruct (isspace c).
Qed.

Lemma lower_empty_inv s : lower s = "" → s = "".
Proof. by destruct s. Qed.

Lemma rstrip_lower s : rstrip (lower s) = lower (rstrip s).
Proof.
  induction s as [|c s IH]; simpl; [done|].
  rewrite IH, isspace_lower_char.
  destruct (rstrip s) as [|a t]; simpl; [by destruct (isspace c)|done].
Qed.

Lemma strip_lower s : strip (lower s) = lower (strip s).
Proof. unfold strip. by rewrite lstrip_lower, rstrip_lower. Qed.

Lemma lstrip_no_leading_space s : no_leading_space (lstrip s).
Proof.
  induction s as [|c s IH]; simpl; [done|].
  destruct (isspace c) eqn:E; [done|]. exact E.
Qed.

Lemma lstrip_fixed s : no_leading_space s → lstrip s = s.
Proof. destruct s as [|c s]; simpl; [done|]. by intros ->. Qed.

Lemma rstrip_no_leading_space s : no_leading_space s → no_leading_space (rstrip s).
Proof.
  destruct s as [|c s]; simpl; [done|]. intros E.
  destruct (rstrip s); simpl; [by rewrite E|done].
Qed.

Lemma rstrip_idem s : rstrip (rstrip s) = rstrip s.
Proof.
  induction s as [|c s IH]; simpl; [done|].
  destruct (rstrip s) as [|a t] eqn:E.
  - destruct (isspace c) eqn:Ec; simpl; [done|]. by rewrite Ec.
  - change (rstrip (String c (String a t))) with
      (match rstrip (String a t) with
       | "" => if isspace c then "" else String c ""
       | u => String c u
       end).
    by rewrite IH.
Qed.

Lemma strip_idem s : strip (strip s) = strip s.
Proof.
  unfold strip.
  rewrite (lstrip_fixed (rstrip (lstrip s))).
  - apply rstrip_idem.
  - apply rstrip_no_leading_space, lstrip_no_leading_space.
Qed.

Lemma has_char_lower_at s : has_char "@" (lower s) = has_char "@" s.
Proof.
  induction s as [|c s IH]; simpl; [done|].
  by rewrite lower_char_is_at, IH.
Qed.

Lemma has_char_lower_dot s : has_char "." (lower s) = has_char "." s.
Proof.
  induction s as [|c s IH]; simpl; [done|].
  by rewrite lower_char_is_dot, IH.
Qed.

Lemma count_char_lower_at s : count_char "@" (lower s) = count_char "@" s.
Proof.
  induction s as [|c s IH]; simpl; [done|].
  by rewrite lower_char_is_at, IH.
Qed.

Lemma eqb_not_space a c : isspace c = false → Ascii.eqb a c = true → isspace a = false.
Proof. intros Hc Ha. apply Ascii.eqb_eq in Ha. by subst. Qed.

Lemma has_char_lstrip c s : isspace c = false → has_char c (lstrip s) = has_char c s.
Proof.
  intros Hc. induction s as [|a s IH]; simpl; [done|].
  destruct (isspace a) eqn:Ea; simpl; [|done].
  rewrite IH. destruct (Ascii.eqb a c) eqn:E; [|done].
  rewrite (eqb_not_space a c Hc E) in Ea. discriminate.
Qed.

Lemma has_char_rstrip c s : isspace c = false → has_char c (rstrip s) = has_char c s.
Proof.
  intros Hc. induction s as [|a s IH]; simpl; [done|].
  destruct (rstrip s) as [|b t] eqn:E.
  - simpl in IH. rewrite <- IH, orb_false_r.
    destruct (isspace a) eqn:Ea; simpl; [|by rewrite orb_false_r].
    destruct (Ascii.eqb a c) eqn:Eac; [|done].
    rewrite (eqb_not_space a c Hc Eac) in Ea. discriminate.
  - change (has_char c (String a (String b t)))
      with (Ascii.eqb a c || has_char c (String b t)).
    by rewrite IH.
Qed.

Lemma has_char_strip c s : isspace c = false → has_char c (strip s) = has_char c s.
Proof.
  intros Hc. unfold strip. by rewrite has_char_rstrip, has_char_lstrip.
Qed.

Lemma has_char_app c s t : has_char c (s +:+ t) = has_char c s || has_char c t.
Proof.
  induction s as [|a s IH]; [done|]. rewrite app_cons. simpl.
  by rewrite IH, orb_assoc.
Qed.

Lemma count_char_app c s t :
  count_char c (s +:+ t) = (count_char c s + count_char c t)%nat.
Proof.
  induction s as [|a s IH]; [done|]. rewrite app_cons. simpl.
  rewrite IH. lia.
Qed.

Lemma count_char_absent c s : has_char c s = false → count_char c s = 0%nat.
Proof.
  induction s as [|a s IH]; simpl; [done|].
  intros [Ha Hs]%orb_false_iff. rewrite Ha. simpl. auto.
Qed.

Lemma split_nonempty sep s : split sep s ≠ [].
Proof.
  induction s as [|a s IH]; simpl; [done|].
  destruct (Ascii.eqb a sep); [done|]. by destruct (split sep s).
Qed.

Lemma split_absent sep s : has_char sep s = false → split sep s = [s].
Proof.
  induction s as [|a s IH]; simpl; [done|].
  intros [Ha Hs]%orb_false_iff. rewrite Ha, (IH Hs). done.
Qed.

Lemma split_app sep s t :
  has_char sep s = false →
  split sep (s +:+ String sep t) = s :: split sep t.
Proof.
  induction s as [|a s IH]; intros H.
  - rewrite app_empty_l. simpl. by rewrite Ascii.eqb_refl.
  - simpl in H. apply orb_false_iff in H as [Ha Hs].
    rewrite app_cons. simpl. rewrite Ha, (IH Hs). done.
Qed.

Lemma split_second sep s :
  has_char sep s = true → ∃ d, split sep s !! 1%nat = Some d.
Proof.
  induction s as [|a s IH]; simpl; [done|].
  destruct (Ascii.eqb a sep) eqn:E; simpl.
  - intros _. destruct (split sep s) as [|h t] eqn:Es.
    + by destruct (split_nonempty sep s).
    + by exists h.
  - intros Hs. destruct (IH Hs) as [d Hd].
    destruct (split sep s) as [|h t]; [done|]. by exists d.
Qed.

Lemma split_lower_at s : split "@" (lower s) = lower <$> split "@" s.
Proof.
  induction s as [|a s IH]; simpl; [done|].
  rewrite lower_char_is_at, IH.
  destruct (Ascii.eqb a "@"); [done|].
  destruct (split "@" s) as [|h t] eqn:E; [|done].
  by destruct (split_nonempty "@" s).
Qed.

Lemma startswith_spec s t : startswith s t = true ↔ ∃ q, s = t +:+ q.
Proof.
  revert s. induction t as [|b t IH]; intros s; simpl.
  - split; [intros _; by exists s|done].
  - destruct s as [|a s].
    + split; [done|]. intros [q Hq]. rewrite app_cons in Hq. discriminate.
    + rewrite andb_true_iff, Ascii.eqb_eq, IH. split.
      * intros [-> [q ->]]. by exists q.
      * intros [q Hq]. rewrite app_cons in Hq. injection Hq as -> ->. eauto.
Qed.

Lemma contains_spec s t : contains s t = true ↔ ∃ p q, s = p +:+ t +:+ q.
Proof.
  induction s as [|a s IH].
  - simpl. rewrite orb_false_r, startswith_spec. split.
    + intros [q Hq]. by exists "", q.
    + intros [p [q Hq]]. destruct p as [|b p]; [by exists q|].
      rewrite app_cons in Hq. discriminate.
  - change (contains (String a s) t)
      with (startswith (String a s) t || contains s t).
    rewrite orb_true_iff, startswith_spec, IH. split.
    + intros [[q Hq]|[p [q Hq]]]; [by exists "", q|].
      exists (String a p), q. by rewrite app_cons, Hq.
    + intros [p [q Hq]]. destruct p as [|b p].
      * left. by exists q.
      * right. rewrite app_cons in Hq. injection Hq as -> ->. eauto.
Qed.

Lemma endswith_spec s t : endswith s t = true ↔ ∃ p, s = p +:+ t.
Proof.
  induction s as [|a s IH].
  - cbn [endswith]. rewrite orb_false_r, String.eqb_eq. split.
    + intros <-. by exists "".
    + intros [p Hp]. destruct p as [|b p]; [done|].
      rewrite app_cons in Hp. discriminate.
  - change (endswith (String a s) t)
      with (String.eqb (String a s) t || endswith s t).
    rewrite orb_true_iff, String.eqb_eq, IH. split.
    + intros [<-|[p ->]]; [by exists ""|]. by exists (String a p).
    + intros [p Hp]. destruct p as [|b p].
      * by left.
      * right. rewrite app_cons in Hp. injection Hp as -> ->. eauto.
Qed.

End StringFacts.

(** ** The regular-expression matcher *)

Section RegexFacts.
Import PyStr Regex.

Lemma app_eq_empty (s t : string) : s +:+ t = "" → s = "" ∧ t = "".
Proof. destruct s; [done|]. rewrite app_cons. discriminate. Qed.

Lemma nullable_lang r : nullable r = true ↔ lang r "".
Proof.
  split.
  - induction r as [| |p|r1 IH1 r2 IH2|r1 IH1 r2 IH2|r IH]; simpl; try done.
    + intros _. constructor.
    + intros [H1 H2]%andb_true_iff. apply (L_cat r1 r2 "" ""); auto.
    + intros [H|H]%orb_true_iff; [apply L_alt_l|apply L_alt_r]; auto.
    + intros _. constructor.
  - intros H. remember "" as s eqn:Es.
    induction H as [|p a Hp|r1 r2 s1 s2 H1 IH1 H2 IH2|r1 r2 s H IH
                    |r1 r2 s H IH|r|r s1 s2 H1 IH1 H2 IH2]; simpl; try done.
    + apply app_eq_empty in Es as [-> ->]. by rewrite IH1, IH2.
    + by rewrite IH.
    + rewrite IH by done. apply orb_true_r.
Qed.

Lemma deriv_sound a r s : lang (deriv a r) s → lang r (String a s).
Proof.
  revert s.
  induction r as [| |p|r1 IH1 r2 IH2|r1 IH1 r2 IH2|r IH]; intros s H; simpl in H.
  - inversion H.
  - inversion H.
  - destruct (p a) eqn:Hp; inversion H; subst. by constructor.
  - destruct (nullable r1) eqn:Hn.
    + inversion H as [| | |? ? ? H'|? ? ? H'| |]; subst.
      * inversion H' as [| |? ? s1 s2 Ha Hb| | | |]; subst.
        apply (L_cat r1 r2 (String a s1) s2); auto.
      * apply (L_cat r1 r2 "" (String a s)); [|auto].
        by apply nullable_lang.
    + inversion H as [| |? ? s1 s2 Ha Hb| | | |]; subst.
      apply (L_cat r1 r2 (String a s1) s2); auto.
  - inversion H; subst; [apply L_alt_l|apply L_alt_r]; auto.
  - inversion H as [| |? ? s1 s2 Ha Hb| | | |]; subst.
    apply (L_star_cons r (String a s1) s2); auto.
Qed.

Lemma deriv_complete a r s : lang r (String a s) → lang (deriv a r) s.
Proof.
  intros H. remember (String a s) as w eqn:Ew. revert s Ew.
  induction H as [|p b Hp|r1 r2 s1 s2 H1 IH1 H2 IH2|r1 r2 w H IH
                  |r1 r2 w H IH|r|r s1 s2 H1 IH1 H2 IH2]; intros s Ew; simpl.
  - discriminate.
  - injection Ew as -> <-. rewrite Hp. constructor.
  - destruct s1 as [|c s1].
    + rewrite app_empty_l in Ew. subst s2.
      apply nullable_lang in H1. rewrite H1. apply L_alt_r. by apply IH2.
    + rewrite app_cons in Ew. injection Ew as -> <-.
      destruct (nullable r1); [apply L_alt_l|]; constructor; auto.
  - apply L_alt_l. by apply IH.
  - apply L_alt_r. by apply IH.
  - discriminate.
  - destruct s1 as [|c s1].
    + rewrite app_empty_l in Ew. by apply IH2.
    + rewrite app_cons in Ew. injection Ew as -> <-.
      constructor; auto.
Qed.

(** The matcher decides membership in the language of the expression. *)
Lemma fullmatch_lang r s : fullmatch r s = true ↔ lang r s.
Proof.
  revert r. induction s as [|a s IH]; intros r; simpl.
  - apply nullable_lang.
  - rewrite IH. split; [apply deriv_sound|apply deriv_complete].
Qed.

Lemma lang_cls p s : lang (Cls p) s ↔ ∃ a, s = String a "" ∧ p a = true.
Proof.
  split.
  - intros H. inversion H; subst. eauto.
  - intros [a [-> Hp]]. by constructor.
Qed.

Lemma lang_cat r1 r2 s :
  lang (Cat r1 r2) s ↔ ∃ s1 s2, s = s1 +:+ s2 ∧ lang r1 s1 ∧ lang r2 s2.
Proof.
  split.
  - intros H. inversion H; subst. eauto.
  - intros [s1 [s2 [-> [H1 H2]]]]. by constructor.
Qed.

Lemma lang_star_cls p s : lang (Star (Cls p)) s ↔ all_chars p s = true.
Proof.
  split.
  - intros H. remember (Star (Cls p)) as r eqn:Er.
    induction H as [| | | | | |r s1 s2 H1 IH1 H2 IH2]; try discriminate; [done|].
    injection Er as ->. apply lang_cls in H1 as [a [-> Hp]].
    rewrite app_cons, app_empty_l. simpl. rewrite Hp. by apply IH2.
  - induction s as [|a s IH]; simpl; [constructor|].
    intros [Hp Hs]%andb_true_iff.
    apply (L_star_cons (Cls p) (String a "") s); [by constructor|auto].
Qed.

Lemma lang_plus_cls p s :
  lang (Plus (Cls p)) s ↔ s ≠ "" ∧ all_chars p s = true.
Proof.
  unfold Plus. rewrite lang_cat. split.
  - intros [s1 [s2 [-> [[a [-> Hp]]%lang_cls H2%lang_star_cls]]]].
    rewrite app_cons, app_empty_l. simpl. by rewrite Hp, H2.
  - destruct s as [|a s]; [by intros [? _]|]. simpl.
    intros [_ [Hp Hs]%andb_true_iff].
    exists (String a ""), s. rewrite lang_cls, lang_star_cls. eauto.
Qed.

Lemma lang_atleast2_cls p s :
  lang (AtLeast2 (Cls p)) s ↔ (2 ≤ String.length s)%nat ∧ all_chars p s = true.
Proof.
  unfold AtLeast2. rewrite lang_cat. split.
  - intros [s1 [s2 [-> [[a [-> Hp]]%lang_cls H2]]]].
    apply lang_cat in H2 as [s3 [s4 [-> [[b [-> Hq]]%lang_cls H4%lang_star_cls]]]].
    rewrite !app_cons, !app_empty_l. simpl. rewrite Hp, Hq, H4. split; [lia|done].
  - destruct s as [|a [|b s]]; simpl; [lia|lia|].
    intros [_ [Hp [Hq Hs]%andb_true_iff]%andb_true_iff].
    exists (String a ""), (String b s). split; [done|].
    rewrite lang_cls. split; [eauto|]. apply lang_cat.
    exists (String b ""), s. rewrite lang_cls, lang_star_cls. eauto.
Qed.

(** What the pattern of [validate_email_format] matches. *)
Lemma email_pattern_spec s :
  fullmatch email_pattern s = true ↔
  ∃ loc host tld nl,
    s = loc +:+ String "@" (host +:+ String "." (tld +:+ nl))
    ∧ loc ≠ "" ∧ all_chars local_class loc = true
    ∧ host ≠ "" ∧ all_chars domain_class host = true
    ∧ (2 ≤ String.length tld)%nat ∧ all_chars is_letter tld = true
    ∧ (nl = "" ∨ nl = String "010" "").
Proof.
  rewrite fullmatch_lang. unfold email_pattern, email_body. split.
  - intros H.
    apply lang_cat in H as [s1 [nl [-> [H Hnl]]]].
    apply lang_cat in H as [loc [s2 [-> [Hloc H]]]].
    apply lang_cat in H as [at_ [s3 [-> [[a [-> Ha]]%lang_cls H]]]].
    apply lang_cat in H as [host [s4 [-> [Hhost H]]]].
    apply lang_cat in H as [dot [tld [-> [[b [-> Hb]]%lang_cls Htld]]]].
    apply lang_plus_cls in Hloc as [? ?].
    apply lang_plus_cls in Hhost as [? ?].
    apply lang_atleast2_cls in Htld as [? ?].
    apply Ascii.eqb_eq in Ha as ->. apply Ascii.eqb_eq in Hb as ->.
    exists loc, host, tld, nl.
    repeat (rewrite app_assoc_str || rewrite app_cons || rewrite app_empty_l).
    repeat split; try done.
    inversion Hnl as [| | |? ? ? H'|? ? ? H'| |]; subst.
    + inversion H'. by left.
    + apply lang_cls in H' as [c [-> Hc]]. apply Ascii.eqb_eq in Hc as ->.
      by right.
  - intros (loc & host & tld & nl & -> & Hl1 & Hl2 & Hh1 & Hh2 & Ht1 & Ht2 & Hnl).
    replace (loc +:+ String "@" (host +:+ String "." (tld +:+ nl)))
      with ((loc +:+ (String "@" "" +:+ (host +:+ (String "." "" +:+ tld)))) +:+ nl).
    2:{ by repeat (rewrite app_assoc_str || rewrite app_cons || rewrite app_empty_l). }
    constructor.
    + constructor; [by apply lang_plus_cls|].
      constructor; [by constructor|].
      constructor; [by apply lang_plus_cls|].
      constructor; [by constructor|]. by apply lang_atleast2_cls.
    + destruct Hnl as [->| ->]; [apply L_alt_l; constructor|].
      apply L_alt_r. by constructor.
Qed.

End RegexFacts.

(** ** The monad *)

Section MonadFacts.
Context {A B : Type}.

Lemma bind_ok (t : list event) (a : A) (f : A → M B) :
  ((t, Ok a) ≫= f) = (t ++ trace (f a), outcome (f a)).
Proof. unfold mbind, M_bind. by destruct (f a). Qed.

Lemma bind_raise (t : list event) (e : exn) (f : A → M B) :
  ((t, Raise e) ≫= f) = (t, Raise e).
Proof. done. Qed.

Lemma bind_ret (a : A) (f : A → M B) : (mret a ≫= f) = f a.
Proof. unfold mret, M_ret. rewrite bind_ok. by destruct (f a). Qed.

(** A handler that returns a constant swallows every exception. *)
Lemma try_except_default (m : M A) (x : A) :
  try_except m (λ _, mret x)
  = (trace m, Ok (match outcome m with Ok a => a | Raise _ => x end)).
Proof.
  destruct m as [t [a|e]]; simpl; [done|]. by rewrite app_nil_r.
Qed.

Lemma bind_prepend (t : list event) (a : A) (f : A → M B) :
  ((t, Ok a) ≫= f) = prepend t (f a).
Proof. apply bind_ok. Qed.

Lemma prepend_prepend (t t' : list event) (m : M A) :
  prepend t (prepend t' m) = prepend (t ++ t') m.
Proof. unfold prepend. simpl. by rewrite app_assoc. Qed.

Lemma try_except_prepend (t : list event) (m : M A) (h : exn → M A) :
  try_except (prepend t m) h = prepend t (try_except m h).
Proof.
  destruct m as [t' [a|e]]; unfold prepend; simpl; [done|].
  destruct (h e). simpl. by rewrite app_assoc.
Qed.

Lemma trace_prepend (t : list event) (m : M A) :
  trace (prepend t m) = t ++ trace m.
Proof. done. Qed.

Lemma outcome_prepend (t : list event) (m : M A) :
  outcome (prepend t m) = outcome m.
Proof. done. Qed.

Lemma index_some (l : list A) (i : nat) (x : A) :
  l !! i = Some x → index l i = mret x.
Proof. unfold index. by intros ->. Qed.

Lemma index_none (l : list A) (i : nat) :
  l !! i = None → index l i = raise IndexError.
Proof. unfold index. by intros ->. Qed.
End MonadFacts.

(** ** The stages of the pipeline *)

Section StageFacts.
Import PyStr.
Variable env : Env.
Variable self : EmailVerifier.

Lemma check_domain_exists_eq d :
  check_domain_exists env d
  = ([DnsQuery d RdA], Ok (has_records (dns_resolve env d RdA))).
Proof.
  unfold check_domain_exists, resolve, call. rewrite try_except_default.
  by destruct (dns_resolve env d RdA).
Qed.

Lemma check_domain_mx_record_eq d :
  check_domain_mx_record env d
  = ([DnsQuery d RdMX], Ok (has_records (dns_resolve env d RdMX))).
Proof.
  unfold check_domain_mx_record, resolve, call. rewrite try_except_default.
  by destruct (dns_resolve env d RdMX).
Qed.

Lemma check_domain_reputation_ok d :
  ∃ b, outcome (check_domain_reputation env d) = Ok b.
Proof. unfold check_domain_reputation. rewrite try_except_default. eauto. Qed.

(** Once the address has a second [@]-separated part, the probe returns a
    boolean: every exception of its body is caught inside it. *)
Lemma test_smtp_connection_ok email d :
  split "@" email !! 1%nat = Some d →
  ∃ b, outcome (test_smtp_connection env self email) = Ok b.
Proof.
  intros Hd. unfold test_smtp_connection.
  rewrite (index_some _ _ _ Hd), bind_ret, try_except_default. eauto.
Qed.

Lemma split_normalized e :
  has_char "@" e = true → ∃ d, split "@" (strip (lower e)) !! 1%nat = Some d.
Proof.
  intros H. apply split_second.
  by rewrite has_char_strip, has_char_lower_at.
Qed.

Lemma guard_false e :
  falsy e || negb (has_char "@" e) = false → has_char "@" e = true.
Proof. intros [_ H]%orb_false_iff. by apply negb_false_iff. Qed.

(** The pipeline never raises and knows two verdicts only. *)
Lemma verify_email_comprehensive_verdict e :
  outcome (verify_email_comprehensive env self e) = Ok "200"
  ∨ outcome (verify_email_comprehensive env self e) = Ok "BAD".
Proof.
  unfold verify_email_comprehensive.
  destruct (falsy e || negb (has_char "@" e)) eqn:G; [by right|].
  apply guard_false in G. destruct (split_normalized e G) as [d Hd].
  rewrite (index_some _ _ _ Hd), bind_ret.
  destruct (validate_email_format _); simpl; [|by right].
  rewrite check_domain_exists_eq, bind_ok.
  destruct (has_records _); simpl; [|by right].
  rewrite check_domain_mx_record_eq, bind_ok.
  destruct (has_records _); simpl; [|by right].
  destruct (check_domain_reputation_ok d) as [b Hb].
  destruct (check_domain_reputation env d) as [t r]. simpl in Hb. subst r.
  rewrite bind_ok.
  destruct b; simpl; [|by right].
  rewrite try_except_default.
  destruct (test_smtp_connection_ok _ _ Hd) as [b Hb].
  destruct (test_smtp_connection env self (strip (lower e))) as [t' r].
  simpl in Hb. subst r. rewrite bind_ok. destruct b; simpl; auto.
Qed.

End StageFacts.

(** ** The format check *)

Section FormatFacts.
Import PyStr Regex.

Lemma all_chars_absent p c s :
  p c = false → all_chars p s = true → has_char c s = false.
Proof.
  intros Hc. induction s as [|a s IH]; simpl; [done|].
  intros [Ha Hs]%andb_true_iff. rewrite (IH Hs), orb_false_r.
  destruct (Ascii.eqb a c) eqn:E; [|done].
  apply Ascii.eqb_eq in E. congruence.
Qed.

Lemma all_chars_lower p s :
  (∀ c, p c = true → p (lower_char c) = true) →
  all_chars p s = true → all_chars p (lower s) = true.
Proof.
  intros Hp. induction s as [|a s IH]; simpl; [done|].
  intros [Ha Hs]%andb_true_iff. by rewrite (Hp a Ha), IH.
Qed.

Lemma local_class_lower c : local_class c = true → local_class (lower_char c) = true.
Proof. destruct c as [[] [] [] [] [] [] [] []]; vm_compute; congruence. Qed.

Lemma domain_class_lower c : domain_class c = true → domain_class (lower_char c) = true.
Proof. destruct c as [[] [] [] [] [] [] [] []]; vm_compute; congruence. Qed.

Lemma is_letter_lower c : is_letter c = true → is_letter (lower_char c) = true.
Proof. destruct c as [[] [] [] [] [] [] [] []]; vm_compute; congruence. Qed.

Lemma length_lower s : String.length (lower s) = String.length s.
Proof. induction s as [|a s IH]; simpl; congruence. Qed.

(** An accepted address has one [@], and a dot after it. *)
Lemma validate_email_format_inv e :
  validate_email_format e = true →
  count_char "@" e = 1%nat
  ∧ ∃ d, split "@" e !! 1%nat = Some d ∧ has_char "." d = true.
Proof.
  unfold validate_email_format. rewrite email_pattern_spec.
  intros (loc & host & tld & nl & Hs & _ & Hloc & _ & Hhost & _ & Htld & Hnl).
  assert (has_char "@" loc = false) as Aloc
    by (by apply (all_chars_absent local_class)).
  assert (has_char "@" host = false) as Ahost
    by (by apply (all_chars_absent domain_class)).
  assert (has_char "@" tld = false) as Atld
    by (by apply (all_chars_absent is_letter)).
  assert (has_char "@" nl = false) as Anl by (by destruct Hnl as [-> | ->]).
  set (rest := host +:+ String "." (tld +:+ nl)) in *.
  assert (has_char "@" rest = false) as Arest.
  { unfold rest. rewrite has_char_app. simpl. rewrite has_char_app.
    by rewrite Ahost, Atld, Anl. }
  split.
  - rewrite <- count_char_lower_at, Hs, count_char_app. simpl.
    by rewrite !count_char_absent.
  - pose proof (split_lower_at e) as Hsp.
    rewrite Hs, split_app, (split_absent _ _ Arest) in Hsp by done.
    destruct (split "@" e) as [|x [|d [|y l]]]; try discriminate.
    injection Hsp as _ Hd. exists d. split; [done|].
    rewrite <- has_char_lower_dot, <- Hd. unfold rest.
    rewrite has_char_app. simpl. apply orb_true_r.
Qed.

(** Every address of the shape local@host.tld is accepted. *)
Lemma validate_email_format_shape loc host tld :
  loc ≠ "" → all_chars local_class loc = true →
  host ≠ "" → all_chars domain_class host = true →
  (2 ≤ String.length tld)%nat → all_chars is_letter tld = true →
  validate_email_format (loc +:+ String "@" (host +:+ String "." tld)) = true.
Proof.
  intros Hl1 Hl2 Hh1 Hh2 Ht1 Ht2. unfold validate_email_format.
  apply email_pattern_spec.
  exists (lower loc), (lower host), (lower tld), "".
  rewrite app_empty_r, lower_app. simpl. rewrite lower_app. simpl.
  repeat split.
  - by destruct loc.
  - apply all_chars_lower; [apply local_class_lower|done].
  - by destruct host.
  - apply all_chars_lower; [apply domain_class_lower|done].
  - by rewrite length_lower.
  - apply all_chars_lower; [apply is_letter_lower|done].
  - by left.
Qed.

End FormatFacts.

Section PipelineFacts.
Import PyStr.
Variable env : Env.
Variable self : EmailVerifier.

(** A rejected format ends the pipeline before any call. *)
Lemma format_rejection_is_silent e :
  validate_email_format (strip (lower e)) = false →
  verify_email_comprehensive env self e = ([], Ok "BAD").
Proof.
  intros Hf. unfold verify_email_comprehensive.
  destruct (falsy e || negb (has_char "@" e)) eqn:G; [done|].
  apply guard_false in G. destruct (split_normalized e G) as [d Hd].
  by rewrite (index_some _ _ _ Hd), bind_ret, Hf.
Qed.

Lemma guard_normalized e :
  falsy (lower (strip e)) || negb (has_char "@" (lower (strip e)))
  = falsy e || negb (has_char "@" e).
Proof.
  rewrite has_char_lower_at, has_char_strip by done.
  destruct (has_char "@" e) eqn:H.
  - rewrite !orb_false_r. destruct e as [|a e]; [done|].
    destruct (lower (strip (String a e))) eqn:E; [|done].
    apply lower_empty_inv in E.
    assert (has_char "@" (strip (String a e)) = true) as H'
      by (by rewrite has_char_strip).
    by rewrite E in H'.
  - by rewrite !orb_true_r.
Qed.

Lemma normalize_idem e : strip (lower (lower (strip e))) = strip (lower e).
Proof. by rewrite lower_idem, !strip_lower, strip_idem. Qed.

End PipelineFacts.

(** ** The format gate and the normalization of the address *)

(** C8. The format check rejects an address that does not contain exactly
    one [@], and an address whose domain part (the text after the first [@])
    has no dot; it accepts every address local@host.tld whose parts are
    non-empty words over the pattern's character classes with a top-level
    part of two letters or more, [user@sub.domain.tld] among them; and when
    the format check rejects the normalized address, the pipeline returns
    "BAD" with an empty trace: no DNS query, no SMTP call. *)
Theorem format_check_gate :
  (∀ e, PyStr.count_char "@" e ≠ 1%nat → validate_email_format e = false)
  ∧ (∀ e d, PyStr.split "@" e !! 1%nat = Some d → PyStr.has_char "." d = false →
            validate_email_format e = false)
  ∧ (∀ loc host tld,
        loc ≠ "" → PyStr.all_chars local_class loc = true →
        host ≠ "" → PyStr.all_chars domain_class host = true →
        (2 ≤ String.length tld)%nat → PyStr.all_chars is_letter tld = true →
        validate_email_format (loc +:+ String "@" (host +:+ String "." tld)) = true)
  ∧ validate_email_format "user@sub.domain.tld" = true
  ∧ (∀ env self e,
        validate_email_format (PyStr.strip (PyStr.lower e)) = false →
        verify_email_comprehensive env self e = ([], Ok "BAD")).
Proof.
  split; [|split; [|split; [|split]]].
  - intros e Hc. destruct (validate_email_format e) eqn:E; [|done].
    by apply validate_email_format_inv in E as [? _].
  - intros e d Hd Hdot. destruct (validate_email_format e) eqn:E; [|done].
    apply validate_email_format_inv in E as [_ [d' [Hd' Hdot']]]. congruence.
  - apply validate_email_format_shape.
  - reflexivity.
  - apply format_rejection_is_silent.
Qed.

(** C10. Verifying an address and verifying its normalization (surrounding
    white space stripped, letters lower-cased) make the same calls and give
    the same verdict, in every environment. *)
Theorem verify_normalization_invariant (env : Env) (self : EmailVerifier) (e : string) :
  verify_email_comprehensive env self e
  = verify_email_comprehensive env self (PyStr.lower (PyStr.strip e)).
Proof.
  unfold verify_email_comprehensive.
  by rewrite guard_normalized, normalize_idem.
Qed.

(** The format gate at four addresses. *)
Lemma format_check_gate_witness :
  validate_email_format "not-an-email" = false
  ∧ validate_email_format "user@nodot" = false
  ∧ validate_email_format "Emlak.Ofisi@mail.Example.COM" = true
  ∧ verify_email_comprehensive env_accepting default_verifier "two@at@signs.com"
    = ([], Ok "BAD").
Proof.
  destruct format_check_gate as (H1 & H2 & H3 & _ & H5).
  split; [|split; [|split]].
  - apply H1. vm_compute. lia.
  - apply (H2 "user@nodot" "nodot"); reflexivity.
  - apply (H3 "Emlak.Ofisi" "mail.Example" "COM"); try reflexivity; try discriminate.
    simpl. lia.
  - apply H5. reflexivity.
Defined.

(** ** The SMTP probe *)

Section ProbeFacts.
Import PyStr.
Variable env : Env.
Variable self : EmailVerifier.

(** The probe once the mail exchanger is known and the connection and the
    greeting went through: the three calls made, then the exchange. *)
Lemma test_smtp_connection_connected email domain host rest c0 c1 :
  split "@" email !! 1%nat = Some domain →
  dns_resolve env domain RdMX = Ok (host :: rest) →
  smtp_connect env host 25 = Ok c0 →
  smtp_reply env host HELO (sending_domain self) = Ok c1 →
  test_smtp_connection env self email
  = prepend [DnsQuery domain RdMX; SmtpConnect host 25;
             SmtpCmd HELO (sending_domain self)]
      (try_except
         (code ← server_cmd env host MAIL ("test@" +:+ sending_domain self);
          if negb (code =? 250) then
            _ ← server_cmd env host QUIT ""; mret false
          else
            code ← server_cmd env host RCPT email;
            _ ← server_cmd env host QUIT "";
            mret ((code =? 250) || (code =? 251)))
         (λ _, mret false)).
Proof.
  intros Hd Hmx Hc Hh. unfold test_smtp_connection.
  rewrite (index_some _ _ _ Hd), bind_ret.
  unfold resolve, server_connect, call. rewrite Hmx, bind_prepend.
  rewrite (index_some (host :: rest) 0 host eq_refl), bind_ret.
  rewrite Hc, bind_prepend.
  unfold server_cmd, call. rewrite Hh, bind_prepend.
  by rewrite !try_except_prepend, !prepend_prepend.
Qed.

(** The sender is refused: QUIT follows MAIL, the answer is [False]. *)
Lemma test_smtp_connection_sender_refused email domain host rest c0 c1 m :
  split "@" email !! 1%nat = Some domain →
  dns_resolve env domain RdMX = Ok (host :: rest) →
  smtp_connect env host 25 = Ok c0 →
  smtp_reply env host HELO (sending_domain self) = Ok c1 →
  smtp_reply env host MAIL ("test@" +:+ sending_domain self) = Ok m →
  m ≠ 250 →
  test_smtp_connection env self email
  = ([DnsQuery domain RdMX; SmtpConnect host 25;
      SmtpCmd HELO (sending_domain self);
      SmtpCmd MAIL ("test@" +:+ sending_domain self);
      SmtpCmd QUIT ""], Ok false).
Proof.
  intros Hd Hmx Hc Hh Hm Hne.
  rewrite (test_smtp_connection_connected _ _ _ _ _ _ Hd Hmx Hc Hh).
  unfold server_cmd, call. rewrite Hm, bind_prepend.
  apply Z.eqb_neq in Hne. rewrite Hne. simpl negb. cbv iota.
  rewrite try_except_prepend, try_except_default.
  by destruct (smtp_reply env host QUIT "").
Qed.

(** The sender is accepted and the recipient answered: QUIT follows RCPT. *)
Lemma test_smtp_connection_recipient email domain host rest c0 c1 r :
  split "@" email !! 1%nat = Some domain →
  dns_resolve env domain RdMX = Ok (host :: rest) →
  smtp_connect env host 25 = Ok c0 →
  smtp_reply env host HELO (sending_domain self) = Ok c1 →
  smtp_reply env host MAIL ("test@" +:+ sending_domain self) = Ok 250 →
  smtp_reply env host RCPT email = Ok r →
  test_smtp_connection env self email
  = ([DnsQuery domain RdMX; SmtpConnect host 25;
      SmtpCmd HELO (sending_domain self);
      SmtpCmd MAIL ("test@" +:+ sending_domain self);
      SmtpCmd RCPT email; SmtpCmd QUIT ""],
     Ok (match smtp_reply env host QUIT "" with
         | Ok _ => (r =? 250) || (r =? 251)
         | Raise _ => false
         end)).
Proof.
  intros Hd Hmx Hc Hh Hm Hr.
  rewrite (test_smtp_connection_connected _ _ _ _ _ _ Hd Hmx Hc Hh).
  unfold server_cmd, call. rewrite Hm, bind_prepend.
  change (negb (250 =? 250)) with false. cbv iota.
  rewrite Hr, bind_prepend, !try_except_prepend, try_except_default.
  by destruct (smtp_reply env host QUIT "").
Qed.

(** Whatever the network does, the probe's commands are an initial part
    of HELO, MAIL, RCPT, QUIT or of HELO, MAIL, QUIT. *)
Lemma test_smtp_connection_verbs email :
  smtp_verbs (trace (test_smtp_connection env self email))
  ∈ [ []; [HELO]; [HELO; MAIL]; [HELO; MAIL; QUIT];
      [HELO; MAIL; RCPT]; [HELO; MAIL; RCPT; QUIT] ].
Proof.
  unfold test_smtp_connection, index.
  destruct (split "@" email !! 1%nat) as [domain|]; [|set_solver].
  rewrite bind_ret, try_except_default. simpl.
  unfold resolve, server_connect, server_cmd, call.
  destruct (dns_resolve env domain RdMX) as [[|host rest]|?]; simpl;
    [set_solver| |set_solver].
  destruct (smtp_connect env host 25); simpl; [|set_solver].
  destruct (smtp_reply env host HELO _); simpl; [|set_solver].
  destruct (smtp_reply env host MAIL _) as [m|]; simpl; [|set_solver].
  destruct (negb (m =? 250)); simpl.
  - destruct (smtp_reply env host QUIT _); simpl; set_solver.
  - destruct (smtp_reply env host RCPT _); simpl; [|set_solver].
    destruct (smtp_reply env host QUIT _); simpl; set_solver.
Qed.

Lemma elem_of_smtp_verbs v arg t : SmtpCmd v arg ∈ t → v ∈ smtp_verbs t.
Proof.
  induction t as [|e t IH]; [by intros ?%elem_of_nil|].
  intros [<-|H]%elem_of_cons; simpl; [set_solver|].
  destruct e; simpl; set_solver.
Qed.

End ProbeFacts.

(** ** After the checks: the probe decides *)

Section AfterTheChecks.
Import PyStr.
Variable env : Env.
Variable self : EmailVerifier.

(** When the four checks pass, the verdict is the probe's boolean: the
    handler of [verify_email_comprehensive] around the probe has nothing
    to catch. *)
Lemma verify_after_checks e d :
  has_char "@" e = true →
  split "@" (strip (lower e)) !! 1%nat = Some d →
  validate_email_format (strip (lower e)) = true →
  outcome (check_domain_exists env d) = Ok true →
  outcome (check_domain_mx_record env d) = Ok true →
  outcome (check_domain_reputation env d) = Ok true →
  ∃ b, outcome (test_smtp_connection env self (strip (lower e))) = Ok b
       ∧ outcome (verify_email_comprehensive env self e)
         = Ok (if b then "200" else "BAD").
Proof.
  intros Hat Hd Hf Ha Hmx Hrep.
  destruct (test_smtp_connection_ok env self _ _ Hd) as [b Hb].
  exists b. split; [done|].
  unfold verify_email_comprehensive. rewrite Hat.
  destruct e as [|a e]; [done|]. cbn [falsy orb negb].
  rewrite (index_some _ _ _ Hd), bind_ret, Hf. cbn [negb].
  destruct (check_domain_exists env d) as [t1 r1]. simpl in Ha. subst r1.
  rewrite bind_prepend, outcome_prepend. cbn [negb].
  destruct (check_domain_mx_record env d) as [t2 r2]. simpl in Hmx. subst r2.
  rewrite bind_prepend, outcome_prepend. cbn [negb].
  destruct (check_domain_reputation env d) as [t3 r3]. simpl in Hrep. subst r3.
  rewrite bind_prepend, outcome_prepend. cbn [negb].
  rewrite try_except_default.
  destruct (test_smtp_connection env self _) as [t4 r4]. simpl in Hb. subst r4.
  rewrite bind_prepend, outcome_prepend. by destruct b.
Qed.

(** A connection that cannot be established makes the probe answer
    [False]: the exception is caught inside the probe. *)
Lemma probe_cannot_connect email domain host rest x :
  split "@" email !! 1%nat = Some domain →
  dns_resolve env domain RdMX = Ok (host :: rest) →
  smtp_connect env host 25 = Raise x →
  test_smtp_connection env self email
  = ([DnsQuery domain RdMX; SmtpConnect host 25], Ok false).
Proof.
  intros Hd Hmx Hc. unfold test_smtp_connection.
  rewrite (index_some _ _ _ Hd), bind_ret.
  unfold resolve, server_connect, call. rewrite Hmx, bind_prepend.
  rewrite (index_some (host :: rest) 0 host eq_refl), bind_ret.
  by rewrite Hc, bind_raise.
Qed.

(** So does a step that times out or fails, here the recipient step. *)
Lemma probe_recipient_step_fails email domain host rest c0 c1 x :
  split "@" email !! 1%nat = Some domain →
  dns_resolve env domain RdMX = Ok (host :: rest) →
  smtp_connect env host 25 = Ok c0 →
  smtp_reply env host HELO (sending_domain self) = Ok c1 →
  smtp_reply env host MAIL ("test@" +:+ sending_domain self) = Ok 250 →
  smtp_reply env host RCPT email = Raise x →
  outcome (test_smtp_connection env self email) = Ok false.
Proof.
  intros Hd Hmx Hc Hh Hm Hr.
  rewrite (test_smtp_connection_connected _ _ _ _ _ _ _ _ Hd Hmx Hc Hh).
  unfold server_cmd, call. rewrite Hm, bind_prepend.
  change (negb (250 =? 250)) with false. cbv iota.
  by rewrite Hr, bind_raise.
Qed.

(** With the checks passed and the server unreachable, the verdict is
    "BAD". *)
Lemma unreachable_after_checks e d host rest x :
  has_char "@" e = true →
  split "@" (strip (lower e)) !! 1%nat = Some d →
  validate_email_format (strip (lower e)) = true →
  outcome (check_domain_exists env d) = Ok true →
  outcome (check_domain_mx_record env d) = Ok true →
  outcome (check_domain_reputation env d) = Ok true →
  dns_resolve env d RdMX = Ok (host :: rest) →
  smtp_connect env host 25 = Raise x →
  outcome (verify_email_comprehensive env self e) = Ok "BAD".
Proof.
  intros Hat Hd Hf Ha Hmx Hrep Hres Hc.
  destruct (verify_after_checks e d Hat Hd Hf Ha Hmx Hrep) as [b [Hb ->]].
  rewrite (probe_cannot_connect _ _ _ _ _ Hd Hres Hc) in Hb.
  by injection Hb as <-.
Qed.

Lemma is_trusted_spec d :
  is_trusted d = true ↔ ∃ t p q, t ∈ trusted_turkish_domains ∧ d = p +:+ t +:+ q.
Proof.
  unfold is_trusted. rewrite existsb_exists. split.
  - intros [t [Hin [p [q Hc]]%contains_spec]].
    exists t, p, q. by rewrite list_elem_of_In.
  - intros (t & p & q & Hin & Hd). exists t. rewrite <- list_elem_of_In.
    split; [done|]. apply contains_spec. eauto.
Qed.

Lemma check_domain_reputation_trusted d :
  is_trusted d = true → check_domain_reputation env d = ([], Ok true).
Proof. intros H. unfold check_domain_reputation. by rewrite H. Qed.

End AfterTheChecks.

(** C1. An address that passes the format, existence, MX and reputation
    checks and whose mail server cannot be reached gets "BAD": the failure
    of the probe is not resolved to "200". *)
Theorem unreachable_server_is_rejected :
  validate_email_format "info@gmail.com" = true
  ∧ outcome (check_domain_exists env_unreachable "gmail.com") = Ok true
  ∧ outcome (check_domain_mx_record env_unreachable "gmail.com") = Ok true
  ∧ outcome (check_domain_reputation env_unreachable "gmail.com") = Ok true
  ∧ smtp_connect env_unreachable "gmail-smtp-in.l.google.com" 25 = Raise OSError
  ∧ verify_email_comprehensive env_unreachable default_verifier "info@gmail.com"
    = ([DnsQuery "gmail.com" RdA; DnsQuery "gmail.com" RdMX;
        DnsQuery "gmail.com" RdMX;
        SmtpConnect "gmail-smtp-in.l.google.com" 25], Ok "BAD").
Proof. repeat split; reflexivity. Qed.

(** C3, as the claim states it, fails: [gmail.com.evil.org] neither equals
    nor ends with an entry of the allow-list, and is classified trusted. *)
Lemma interior_match_is_trusted :
  is_trusted "gmail.com.evil.org" = true
  ∧ (∀ env, check_domain_reputation env "gmail.com.evil.org" = ([], Ok true))
  ∧ ∀ t, t ∈ trusted_turkish_domains →
         PyStr.endswith "gmail.com.evil.org" t = false.
Proof.
  split; [reflexivity|]. split; [reflexivity|].
  intros t Ht. unfold trusted_turkish_domains in Ht.
  repeat (apply elem_of_cons in Ht as [->|Ht]; [reflexivity|]).
  by apply elem_of_nil in Ht.
Qed.

(** C3, amended. A domain is classified trusted exactly when an entry of
    the allow-list occurs in it as a substring, anywhere; a domain that
    equals an entry or ends with one is a case of this; and a trusted
    domain passes the reputation check without any DNS query. *)
Theorem trusted_is_substring_match :
  (∀ d, is_trusted d = true
        ↔ ∃ t p q, t ∈ trusted_turkish_domains ∧ d = p +:+ t +:+ q)
  ∧ (∀ d t, t ∈ trusted_turkish_domains → PyStr.endswith d t = true →
            is_trusted d = true)
  ∧ (∀ env d, is_trusted d = true → check_domain_reputation env d = ([], Ok true)).
Proof.
  split; [apply is_trusted_spec|]. split.
  - intros d t Ht [p Hp]%endswith_spec. apply is_trusted_spec.
    exists t, p, "". by rewrite app_empty_r.
  - intros env d. apply check_domain_reputation_trusted.
Qed.

(** A Turkish business domain: trusted through its suffix, no DNS query. *)
Lemma trusted_is_substring_match_witness :
  is_trusted "mail.firma.com.tr" = true
  ∧ check_domain_reputation env_unreachable "mail.firma.com.tr" = ([], Ok true).
Proof.
  destruct trusted_is_substring_match as (_ & H2 & H3).
  assert (is_trusted "mail.firma.com.tr" = true) as H.
  { apply (H2 "mail.firma.com.tr" "com.tr"); [|reflexivity].
    unfold trusted_turkish_domains. repeat constructor. }
  split; [exact H|]. apply H3. exact H.
Defined.

(** [H : x ∈ l] for a literal list [l] that does not hold [x]. *)
Ltac absent_from_list H :=
  repeat (apply elem_of_cons in H as [H|H]; [discriminate H|]);
  apply elem_of_nil in H.

(** C4, as the claim states it, fails: the probe sends QUIT, after RCPT TO
    when the sender was accepted and right after MAIL FROM when it was
    refused. *)
Lemma probe_sends_quit :
  smtp_verbs (trace (test_smtp_connection env_accepting default_verifier
                       "info@gmail.com"))
  = [HELO; MAIL; RCPT; QUIT]
  ∧ smtp_verbs (trace (test_smtp_connection env_sender_refused default_verifier
                         "info@gmail.com"))
    = [HELO; MAIL; QUIT]
  ∧ SmtpCmd QUIT "" ∈ trace (test_smtp_connection env_accepting default_verifier
                               "info@gmail.com").
Proof.
  split; [reflexivity|]. split; [reflexivity|].
  vm_compute. repeat constructor.
Qed.

(** C4, amended. The probe never sends DATA. When MAIL FROM is answered
    with a code other than 250, the commands sent are HELO, MAIL FROM and
    QUIT; when MAIL FROM is answered with 250 and RCPT TO is answered, they
    are HELO, MAIL FROM, RCPT TO and QUIT: the connection is closed by a
    QUIT on both paths. *)
Theorem probe_command_sequence :
  (∀ env self email arg,
      SmtpCmd DATA arg ∉ trace (test_smtp_connection env self email))
  ∧ (∀ env self email domain host rest c0 c1 m,
        PyStr.split "@" email !! 1%nat = Some domain →
        dns_resolve env domain RdMX = Ok (host :: rest) →
        smtp_connect env host 25 = Ok c0 →
        smtp_reply env host HELO (sending_domain self) = Ok c1 →
        smtp_reply env host MAIL ("test@" +:+ sending_domain self) = Ok m →
        m ≠ 250 →
        smtp_verbs (trace (test_smtp_connection env self email))
        = [HELO; MAIL; QUIT])
  ∧ (∀ env self email domain host rest c0 c1 r,
        PyStr.split "@" email !! 1%nat = Some domain →
        dns_resolve env domain RdMX = Ok (host :: rest) →
        smtp_connect env host 25 = Ok c0 →
        smtp_reply env host HELO (sending_domain self) = Ok c1 →
        smtp_reply env host MAIL ("test@" +:+ sending_domain self) = Ok 250 →
        smtp_reply env host RCPT email = Ok r →
        smtp_verbs (trace (test_smtp_connection env self email))
        = [HELO; MAIL; RCPT; QUIT]).
Proof.
  split; [|split].
  - intros env self email arg Hin.
    apply elem_of_smtp_verbs in Hin.
    pose proof (test_smtp_connection_verbs env self email) as Hv.
    revert Hin. generalize dependent (smtp_verbs (trace (test_smtp_connection env self email))).
    intros l Hl Hin.
    repeat (apply elem_of_cons in Hl as [->|Hl]; [by absent_from_list Hin|]).
    by apply elem_of_nil in Hl.
  - intros env self email domain host rest c0 c1 m Hd Hmx Hc Hh Hm Hne.
    by rewrite (test_smtp_connection_sender_refused _ _ _ _ _ _ _ _ _ Hd Hmx Hc Hh Hm Hne).
  - intros env self email domain host rest c0 c1 r Hd Hmx Hc Hh Hm Hr.
    by rewrite (test_smtp_connection_recipient _ _ _ _ _ _ _ _ _ Hd Hmx Hc Hh Hm Hr).
Qed.

(** The two command sequences, at a server that refuses the sender and at
    one that accepts. *)
Lemma probe_command_sequence_witness :
  smtp_verbs (trace (test_smtp_connection env_sender_refused default_verifier
                       "info@gmail.com"))
  = [HELO; MAIL; QUIT]
  ∧ smtp_verbs (trace (test_smtp_connection env_accepting default_verifier
                         "info@gmail.com"))
    = [HELO; MAIL; RCPT; QUIT].
Proof.
  destruct probe_command_sequence as (_ & H2 & H3). split.
  - apply (H2 env_sender_refused default_verifier "info@gmail.com" "gmail.com"
              "gmail-smtp-in.l.google.com" [] 220 250 550); try reflexivity.
    lia.
  - apply (H3 env_accepting default_verifier "info@gmail.com" "gmail.com"
              "gmail-smtp-in.l.google.com" [] 220 250 250); reflexivity.
Defined.

(** C7, as the claim states it, fails: the server answers 250 to MAIL FROM
    and 250 to RCPT TO, the closing QUIT raises, and the probe answers
    [False]; the verdict is "BAD". *)
Lemma accepted_recipient_lost_on_quit :
  smtp_reply env_quit_fails "gmail-smtp-in.l.google.com" MAIL "test@gatesweb.top"
  = Ok 250
  ∧ smtp_reply env_quit_fails "gmail-smtp-in.l.google.com" RCPT "info@gmail.com"
    = Ok 250
  ∧ test_smtp_connection env_quit_fails default_verifier "info@gmail.com"
    = ([DnsQuery "gmail.com" RdMX;
        SmtpConnect "gmail-smtp-in.l.google.com" 25;
        SmtpCmd HELO "gatesweb.top"; SmtpCmd MAIL "test@gatesweb.top";
        SmtpCmd RCPT "info@gmail.com"; SmtpCmd QUIT ""], Ok false)
  ∧ outcome (verify_email_comprehensive env_quit_fails default_verifier
               "info@gmail.com") = Ok "BAD".
Proof. repeat split; reflexivity. Qed.

(** C7, amended. With the connection open and the greeting done: a reply
    to MAIL FROM other than 250 ends the probe with [False], and no RCPT TO
    is sent; after a 250 to MAIL FROM, when the closing QUIT completes, the
    probe answers [True] exactly for the replies 250 and 251 to RCPT TO;
    every other reply to RCPT TO gives [False]; and so does every reply,
    250 and 251 included, when the closing QUIT raises. *)
Theorem smtp_reply_codes (env : Env) (self : EmailVerifier)
    (email domain host : string) (rest : list string) (c0 c1 : Z) :
  PyStr.split "@" email !! 1%nat = Some domain →
  dns_resolve env domain RdMX = Ok (host :: rest) →
  smtp_connect env host 25 = Ok c0 →
  smtp_reply env host HELO (sending_domain self) = Ok c1 →
  (∀ m, smtp_reply env host MAIL ("test@" +:+ sending_domain self) = Ok m →
        m ≠ 250 →
        outcome (test_smtp_connection env self email) = Ok false
        ∧ RCPT ∉ smtp_verbs (trace (test_smtp_connection env self email)))
  ∧ (∀ r q, smtp_reply env host MAIL ("test@" +:+ sending_domain self) = Ok 250 →
            smtp_reply env host RCPT email = Ok r →
            smtp_reply env host QUIT "" = Ok q →
            outcome (test_smtp_connection env self email)
            = Ok (bool_decide (r = 250 ∨ r = 251)))
  ∧ (∀ r, smtp_reply env host MAIL ("test@" +:+ sending_domain self) = Ok 250 →
          smtp_reply env host RCPT email = Ok r →
          r ≠ 250 → r ≠ 251 →
          outcome (test_smtp_connection env self email) = Ok false)
  ∧ (∀ r x, smtp_reply env host MAIL ("test@" +:+ sending_domain self) = Ok 250 →
            smtp_reply env host RCPT email = Ok r →
            smtp_reply env host QUIT "" = Raise x →
            outcome (test_smtp_connection env self email) = Ok false).
Proof.
  intros Hd Hmx Hc Hh. split; [|split; [|split]].
  - intros m Hm Hne.
    rewrite (test_smtp_connection_sender_refused _ _ _ _ _ _ _ _ _ Hd Hmx Hc Hh Hm Hne).
    split; [done|]. simpl. intros Hin. by absent_from_list Hin.
  - intros r q Hm Hr Hq.
    rewrite (test_smtp_connection_recipient _ _ _ _ _ _ _ _ _ Hd Hmx Hc Hh Hm Hr).
    simpl. rewrite Hq. f_equal.
    destruct (Z.eqb_spec r 250) as [->|H0]; [done|].
    destruct (Z.eqb_spec r 251) as [->|H1]; [done|].
    simpl. symmetry. apply bool_decide_eq_false. lia.
  - intros r Hm Hr H0 H1.
    rewrite (test_smtp_connection_recipient _ _ _ _ _ _ _ _ _ Hd Hmx Hc Hh Hm Hr).
    simpl. apply Z.eqb_neq in H0, H1. rewrite H0, H1.
    by destruct (smtp_reply env host QUIT "").
  - intros r x Hm Hr Hq.
    rewrite (test_smtp_connection_recipient _ _ _ _ _ _ _ _ _ Hd Hmx Hc Hh Hm Hr).
    simpl. by rewrite Hq.
Qed.

(** A 250 to RCPT TO is an acceptance when QUIT completes, and is lost
    when QUIT raises. *)
Lemma smtp_reply_codes_witness :
  outcome (test_smtp_connection env_accepting default_verifier "info@gmail.com")
  = Ok true
  ∧ outcome (test_smtp_connection env_quit_fails default_verifier
               "info@gmail.com") = Ok false.
Proof.
  split.
  - destruct (smtp_reply_codes env_accepting default_verifier "info@gmail.com"
                "gmail.com" "gmail-smtp-in.l.google.com" [] 220 250
                eq_refl eq_refl eq_refl eq_refl) as (_ & H & _).
    exact (H 250 250 eq_refl eq_refl eq_refl).
  - destruct (smtp_reply_codes env_quit_fails default_verifier "info@gmail.com"
                "gmail.com" "gmail-smtp-in.l.google.com" [] 220 250
                eq_refl eq_refl eq_refl eq_refl) as (_ & _ & _ & H).
    exact (H 250 SMTPException eq_refl eq_refl eq_refl).
Defined.

(** ** Batches and the orchestrator *)

Section BatchFacts.
Variable env : Env.
Variable self : EmailVerifier.

Lemma outcome_bind_ok {A B} (m : M A) (f : A → M B) (a : A) :
  outcome m = Ok a → outcome (m ≫= f) = outcome (f a).
Proof.
  destruct m as [t r]. intros H. simpl in H. subst r. by rewrite bind_ok.
Qed.

Lemma verdict_is_verdict e : is_verdict (verdict env self e).
Proof.
  unfold verdict, is_verdict.
  destruct (verify_email_comprehensive_verdict env self e) as [-> | ->]; auto.
Qed.

(** One turn of the loop of [verify_email_batch]. *)
Lemma verify_email_batch_step results e :
  outcome (try_except
             (result ← verify_email_comprehensive env self e;
              mret (results ++ [result]))
             (λ _, mret (results ++ ["BAD"])))
  = Ok (results ++ [verdict env self e]).
Proof.
  unfold verdict.
  destruct (verify_email_comprehensive env self e) as [t [v|x]]; [|done].
  by rewrite bind_ok.
Qed.

Lemma verify_email_batch_from_outcome results batch :
  outcome (verify_email_batch_from env self results batch)
  = Ok (results ++ (verdict env self <$> batch)).
Proof.
  revert results. induction batch as [|e batch IH]; intros results; simpl.
  - by rewrite app_nil_r.
  - rewrite (outcome_bind_ok _ _ _ (verify_email_batch_step results e)), IH.
    by rewrite <- app_assoc.
Qed.

(** A batch yields one verdict per address, in the order of the batch. *)
Lemma verify_email_batch_outcome batch :
  outcome (verify_email_batch env self batch) = Ok (verdict env self <$> batch).
Proof. apply verify_email_batch_from_outcome. Qed.

Lemma batch_outcome_length batches k :
  length (batch_outcome env self batches k) = length (default [] (batches !! k)).
Proof.
  unfold batch_outcome, future_result.
  destruct (worker_fault env k).
  - apply length_replicate.
  - by rewrite verify_email_batch_outcome, length_fmap.
Qed.

Lemma batch_outcome_verdicts batches k :
  Forall is_verdict (batch_outcome env self batches k).
Proof.
  unfold batch_outcome, future_result.
  destruct (worker_fault env k).
  - apply Forall_replicate. by right.
  - rewrite verify_email_batch_outcome. apply Forall_fmap, Forall_forall.
    intros e _. apply verdict_is_verdict.
Qed.

(** A failed batch is recorded as one "BAD" per address of the batch. *)
Lemma batch_outcome_fault batches k x :
  worker_fault env k = Some x →
  batch_outcome env self batches k
  = replicate (length (default [] (batches !! k))) "BAD".
Proof. intros H. unfold batch_outcome, future_result. by rewrite H. Qed.

Lemma batch_outcome_no_fault batches k :
  worker_fault env k = None →
  batch_outcome env self batches k
  = verdict env self <$> default [] (batches !! k).
Proof.
  intros H. unfold batch_outcome, future_result.
  by rewrite H, verify_email_batch_outcome.
Qed.

(** The results are the outcomes of the batches, in completion order. *)
Lemma collect_results_eq batches order acc :
  collect_results env self batches order acc
  = acc ++ concat (batch_outcome env self batches <$> order).
Proof.
  revert acc. induction order as [|k order IH]; intros acc; simpl.
  - by rewrite app_nil_r.
  - rewrite IH. unfold batch_outcome.
    destruct (future_result env self k _); by rewrite <- app_assoc.
Qed.

Lemma collect_results_verdicts batches order :
  Forall is_verdict (collect_results env self batches order []).
Proof.
  rewrite collect_results_eq. simpl.
  induction order as [|k order IH]; simpl; [constructor|].
  apply Forall_app. split; [apply batch_outcome_verdicts|done].
Qed.

Lemma length_concat_sum {A} (ls : list (list A)) :
  length (concat ls) = sum_list_with length ls.
Proof. induction ls as [|l ls IH]; simpl; [done|]. by rewrite length_app, IH. Qed.

Lemma sum_list_with_fmap {A B} (f : A → B) (g : B → nat) (l : list A) :
  sum_list_with g (f <$> l) = sum_list_with (g ∘ f) l.
Proof. induction l as [|x l IH]; [done|]. csimpl. by rewrite IH. Qed.

Lemma fmap_seq_lookup {A B} (d : A) (h : nat → A → B) (l : list A) :
  (λ k, h k (default d (l !! k))) <$> seq 0 (length l) = imap h l.
Proof.
  rewrite <- imap_seq_0. apply imap_ext. by intros i x ->.
Qed.

Lemma imap_const_fmap {A B} (h : A → B) (l : list A) :
  imap (λ _, h) l = h <$> l.
Proof.
  apply list_eq. intros i. by rewrite list_lookup_imap, list_lookup_fmap.
Qed.

Lemma sum_over_indices {A} (g : nat → nat) (h : list A → nat) (ls : list (list A)) :
  (∀ k, g k = h (default [] (ls !! k))) →
  sum_list_with g (seq 0 (length ls)) = sum_list_with h ls.
Proof.
  intros Hg.
  transitivity (sum_list_with id (g <$> seq 0 (length ls)));
    [by rewrite sum_list_with_fmap|].
  transitivity (sum_list_with id (h <$> ls));
    [|by rewrite sum_list_with_fmap].
  f_equal. rewrite <- (imap_const_fmap h), <- (fmap_seq_lookup []).
  apply list_fmap_ext. intros i k _. apply Hg.
Qed.

(** However the batches complete, as long as each completes once, there
    are as many results as addresses. *)
Lemma collect_results_length batches order :
  order ≡ₚ seq 0 (length batches) →
  length (collect_results env self batches order []) = length (concat batches).
Proof.
  intros Hp. rewrite collect_results_eq. simpl.
  rewrite !length_concat_sum, sum_list_with_fmap, Hp.
  apply sum_over_indices. intros k. simpl. apply batch_outcome_length.
Qed.

Lemma fmap_concat {A B} (f : A → B) (ls : list (list A)) :
  f <$> concat ls = concat ((λ l : list A, f <$> l) <$> ls).
Proof.
  induction ls as [|l ls IH]; [done|]. csimpl. by rewrite fmap_app, IH.
Qed.

Lemma take_chunks (l : list string) (n : nat) :
  concat ((λ i, take batch_size (drop i l)) <$> ((λ k, k * batch_size)%nat <$> seq 0 n))
  = take (n * batch_size) l.
Proof.
  induction n as [|n IH]; [done|].
  rewrite seq_S, !fmap_app, concat_app, IH.
  replace (S n * batch_size)%nat with (n * batch_size + batch_size)%nat by lia.
  rewrite <- take_take_drop. f_equal.
  cbn [fmap list_fmap concat Nat.add]. apply app_nil_r.
Qed.

(** The batches, put end to end, are the addresses. *)
Lemma make_batches_concat (emails : list string) :
  concat (make_batches emails) = emails.
Proof.
  unfold make_batches, range_step. rewrite take_chunks.
  apply take_ge. unfold batch_size.
  pose proof (Nat.div_mod_eq (length emails + 50 - 1) 50) as H.
  pose proof (Nat.mod_upper_bound (length emails + 50 - 1) 50) as H'.
  lia.
Qed.

Lemma annotate_lookup all_results cs i :
  annotate all_results cs !! i
  = (λ company,
       <["email_verification" :=
           if (i <? length all_results)%nat then nth i all_results "" else "BAD"]>
         company) <$> cs !! i.
Proof.
  unfold annotate. rewrite list_lookup_imap.
  destruct (cs !! i); simpl; [|done]. by destruct (i <? length all_results)%nat.
Qed.

Lemma annotated_value_is_verdict all_results i :
  Forall is_verdict all_results →
  is_verdict (if (i <? length all_results)%nat then nth i all_results "" else "BAD").
Proof.
  intros H. destruct (Nat.ltb_spec i (length all_results)) as [Hlt|]; [|by right].
  destruct (lookup_lt_is_Some_2 _ _ Hlt) as [v Hv].
  rewrite (nth_lookup_Some _ _ _ _ Hv).
  by apply (proj1 (Forall_lookup _ _) H i).
Qed.

Lemma companies_after_run order :
  companies (fst (verify_all_emails env self order))
  = annotate (collect_results env self (make_batches (emails_of (companies self)))
                order [])
      (companies self).
Proof.
  unfold verify_all_emails.
  by destruct (length _ =? 0)%nat.
Qed.

(** With records to verify and every batch completing once, the run
    returns the annotated records: the division is defined. *)
Lemma verify_all_emails_returns order :
  companies self ≠ [] →
  order ≡ₚ seq 0 (length (make_batches (emails_of (companies self)))) →
  snd (verify_all_emails env self order)
  = Ok (companies (fst (verify_all_emails env self order))).
Proof.
  intros Hne Hp. unfold verify_all_emails.
  rewrite (collect_results_length _ _ Hp), make_batches_concat.
  unfold emails_of. rewrite length_fmap.
  destruct (companies self); [done|]. done.
Qed.

(** When the batches complete in the order of submission and no thread
    dies, result [i] is the verdict of address [i]. *)
Lemma collect_results_in_order emails :
  (∀ k, worker_fault env k = None) →
  collect_results env self (make_batches emails)
    (seq 0 (length (make_batches emails))) []
  = verdict env self <$> emails.
Proof.
  intros Hnf. rewrite collect_results_eq. simpl.
  transitivity (verdict env self <$> concat (make_batches emails));
    [|by rewrite make_batches_concat].
  rewrite fmap_concat. f_equal.
  rewrite <- (imap_const_fmap (λ l : list string, verdict env self <$> l)
                (make_batches emails)).
  rewrite <- (fmap_seq_lookup []).
  apply list_fmap_ext. intros i k _. simpl.
  by apply batch_outcome_no_fault.
Qed.

End BatchFacts.

(** ** Completion in the order of submission *)

Section InOrder.
Variable env : Env.
Variable self : EmailVerifier.

Lemma lookup_concat_block {A} (ls : list (list A)) (c k j : nat) (l : list A) :
  Forall (λ l', length l' = c) (take k ls) →
  ls !! k = Some l → (j < length l)%nat →
  concat ls !! (k * c + j)%nat = l !! j.
Proof.
  revert k. induction ls as [|l0 ls IH]; intros [|k] Hall Hk Hj; try done.
  - simpl in Hk. injection Hk as ->. simpl. by rewrite lookup_app_l.
  - simpl in Hall, Hk. apply Forall_cons in Hall as [Hc Hall]. simpl concat.
    rewrite lookup_app_r by lia.
    replace (S k * c + j - length l0)%nat with (k * c + j)%nat by lia.
    by apply IH.
Qed.

Lemma make_batches_length emails :
  length (make_batches emails) = ((length emails + batch_size - 1) / batch_size)%nat.
Proof. unfold make_batches, range_step. by rewrite !length_fmap, length_seq. Qed.

Lemma make_batches_lookup emails k :
  (k * batch_size < length emails)%nat →
  make_batches emails !! k = Some (take batch_size (drop (k * batch_size) emails)).
Proof.
  intros Hk. unfold make_batches, range_step.
  rewrite !list_lookup_fmap, lookup_seq_lt; [done|].
  unfold batch_size in *.
  pose proof (Nat.div_mod_eq (length emails + 50 - 1) 50) as H.
  pose proof (Nat.mod_upper_bound (length emails + 50 - 1) 50) as H'.
  lia.
Qed.

(** In submission order, result [k * batch_size + j] is entry [j] of what
    batch [k] produced. *)
Lemma collect_results_in_order_lookup emails k j :
  (k * batch_size + j < length emails)%nat → (j < batch_size)%nat →
  collect_results env self (make_batches emails)
    (seq 0 (length (make_batches emails))) [] !! (k * batch_size + j)%nat
  = batch_outcome env self (make_batches emails) k !! j.
Proof.
  intros Hi Hj. rewrite collect_results_eq. simpl.
  assert (∀ m, (m ≤ k)%nat →
               make_batches emails !! m
               = Some (take batch_size (drop (m * batch_size) emails))) as Hb.
  { intros m Hm. apply make_batches_lookup. unfold batch_size in *. nia. }
  assert (k < length (make_batches emails))%nat as Hk
    by (apply lookup_lt_is_Some; rewrite Hb by lia; eauto).
  apply lookup_concat_block.
  - apply Forall_lookup. intros m y Hm.
    assert (m < k)%nat as Hlt.
    { apply lookup_lt_Some in Hm. rewrite length_take in Hm. lia. }
    rewrite lookup_take_lt, list_lookup_fmap, lookup_seq_lt in Hm by lia.
    injection Hm as <-. rewrite batch_outcome_length, Hb by lia. simpl.
    rewrite length_take, length_drop. unfold batch_size in *. nia.
  - by rewrite list_lookup_fmap, lookup_seq_lt.
  - rewrite batch_outcome_length, Hb by lia. simpl.
    rewrite length_take, length_drop. unfold batch_size in *. lia.
Qed.

(** In submission order, every address of a batch whose thread died gets
    "BAD". *)
Lemma failed_batch_in_order emails k j x :
  worker_fault env k = Some x →
  (k * batch_size + j < length emails)%nat → (j < batch_size)%nat →
  collect_results env self (make_batches emails)
    (seq 0 (length (make_batches emails))) [] !! (k * batch_size + j)%nat
  = Some "BAD".
Proof.
  intros Hf Hi Hj.
  rewrite collect_results_in_order_lookup, (batch_outcome_fault _ _ _ _ _ Hf) by done.
  apply lookup_replicate_2.
  rewrite make_batches_lookup by (unfold batch_size in *; lia). simpl.
  rewrite length_take, length_drop. unfold batch_size in *. lia.
Qed.

(** In submission order and with no thread dying, record [i] gets the
    verdict of its own address. *)
Lemma in_order_run_aligns i record :
  (∀ k, worker_fault env k = None) →
  companies self !! i = Some record →
  verification_at i
    (verify_all_emails env self
       (seq 0 (length (make_batches (emails_of (companies self))))))
  = Some (verdict env self (default "" (record !! "email"))).
Proof.
  intros Hnf Hi. unfold verification_at.
  rewrite companies_after_run, collect_results_in_order, annotate_lookup, Hi by done.
  simpl. rewrite lookup_insert_eq. f_equal.
  assert ((verdict env self <$> emails_of (companies self)) !! i
          = Some (verdict env self (default "" (record !! "email")))) as Hv.
  { unfold emails_of. by rewrite !list_lookup_fmap, Hi. }
  rewrite (nth_lookup_Some _ _ _ _ Hv).
  apply lookup_lt_Some in Hv. by apply Nat.ltb_lt in Hv as ->.
Qed.

End InOrder.

(** C9, as the claim states it, fails: a record that already carries
    [email_verification], here "200" from an earlier run, has that field
    changed by the run, to "BAD", and gains no field. *)
Lemma existing_verdict_is_overwritten :
  companies verifier_again !! 0%nat = Some verified_before
  ∧ verified_before !! "email_verification" = Some "200"
  ∧ size verified_before = 3%nat
  ∧ ∃ record',
      companies (fst (verify_all_emails env_accepting verifier_again [0%nat]))
        !! 0%nat = Some record'
      ∧ record' !! "email_verification" = Some "BAD"
      ∧ size record' = 3%nat.
Proof.
  split; [reflexivity|]. split; [reflexivity|]. split; [reflexivity|].
  eexists. split; [reflexivity|]. split; reflexivity.
Qed.

(** C9, amended. After a run, every record is still there, at its place;
    each field other than [email_verification] has the value it had; the
    field [email_verification] holds "200" or "BAD"; the fields of the
    record are those it had and [email_verification]: exactly one new field
    when it had no [email_verification] before, and no new field, the old
    value being replaced, when it had one. *)
Theorem records_gain_one_verdict_field (env : Env) (self : EmailVerifier)
    (order : list nat) (i : nat) (record : gmap string string) :
  companies self !! i = Some record →
  length (companies (fst (verify_all_emails env self order)))
  = length (companies self)
  ∧ ∃ record',
      companies (fst (verify_all_emails env self order)) !! i = Some record'
      ∧ (∀ field, field ≠ "email_verification" →
                  record' !! field = record !! field)
      ∧ (record' !! "email_verification" = Some "200"
         ∨ record' !! "email_verification" = Some "BAD")
      ∧ dom record' = {[ "email_verification" ]} ∪ dom record
      ∧ (record !! "email_verification" = None →
         size record' = S (size record))
      ∧ (is_Some (record !! "email_verification") →
         dom record' = dom record ∧ size record' = size record).
Proof.
  intros Hi. rewrite companies_after_run. split.
  - unfold annotate. apply length_imap.
  - rewrite annotate_lookup, Hi. simpl.
    set (all_results := collect_results _ _ _ _ _).
    pose proof (annotated_value_is_verdict all_results i
                  (collect_results_verdicts env self _ order)) as Hv.
    set (v := if (i <? length all_results)%nat then _ else _) in *.
    eexists. split; [done|]. split; [|split; [|split; [|split]]].
    + intros field Hne. by rewrite lookup_insert_ne.
    + rewrite lookup_insert_eq. by destruct Hv as [-> | ->]; [left|right].
    + apply dom_insert_L.
    + intros Hnone. by apply map_size_insert_None.
    + intros Hsome.
      assert (dom (<["email_verification" := v]> record) = dom record) as Hdom
        by (by apply dom_insert_lookup_L).
      split; [done|]. by rewrite <- !size_dom, Hdom.
Qed.

(** Record 50 of the fifty-one keeps its name and address and has three
    fields after the run; the record verified before keeps its three. *)
Lemma records_gain_one_verdict_field_witness :
  (∃ record',
     companies (fst (verify_all_emails env_accepting verifier_51 [1; 0]%nat))
       !! 50%nat = Some record'
     ∧ record' !! "name" = Some "Emlak B"
     ∧ record' !! "email" = Some "info@gmail.com"
     ∧ size record' = 3%nat)
  ∧ (∃ record',
       companies (fst (verify_all_emails env_accepting verifier_again [0%nat]))
         !! 0%nat = Some record'
       ∧ record' !! "email" = Some "not-an-email"
       ∧ size record' = 3%nat).
Proof.
  split.
  - destruct (records_gain_one_verdict_field env_accepting verifier_51
                [1; 0]%nat 50 (company_of "Emlak B" "info@gmail.com") eq_refl)
      as (_ & record' & Hat & Hkeep & _ & _ & Hsize & _).
    exists record'. split; [exact Hat|].
    split; [by rewrite Hkeep|]. split; [by rewrite Hkeep|].
    by rewrite Hsize.
  - destruct (records_gain_one_verdict_field env_accepting verifier_again
                [0%nat] 0 verified_before eq_refl)
      as (_ & record' & Hat & Hkeep & _ & _ & _ & Hsame).
    exists record'. split; [exact Hat|].
    split; [by rewrite Hkeep|].
    by rewrite (proj2 (Hsame (ex_intro _ "200" eq_refl))).
Defined.

(** C5. On the empty list of records the run does not end normally: the
    success rate divides by the number of results, which is zero, and the
    exception leaves [verify_all_emails]. *)
Theorem empty_run_raises (env : Env) (sending : string) :
  verify_all_emails env (new_verifier sending) []
  = (new_verifier sending, Raise ZeroDivisionError).
Proof. reflexivity. Qed.

(** C2. Fifty-one records, the second batch completing before the first:
    the results are as many as the records, yet record 0, whose address is
    rejected, is given the verdict of record 50, and record 50, whose
    address is verified, is given "BAD". *)
Theorem completion_order_misplaces_verdicts :
  [1; 0]%nat ≡ₚ seq 0 (length (make_batches (emails_of (companies verifier_51))))
  ∧ emails_of (companies verifier_51) !! 0%nat = Some "not-an-email"
  ∧ verdict env_accepting verifier_51 "not-an-email" = "BAD"
  ∧ verification_at 0 (verify_all_emails env_accepting verifier_51 [1; 0]%nat)
    = Some "200"
  ∧ emails_of (companies verifier_51) !! 50%nat = Some "info@gmail.com"
  ∧ verdict env_accepting verifier_51 "info@gmail.com" = "200"
  ∧ verification_at 50 (verify_all_emails env_accepting verifier_51 [1; 0]%nat)
    = Some "BAD".
Proof.
  split; [apply perm_swap|]. repeat split; vm_compute; reflexivity.
Qed.


Section FailedBatch.
Variable env : Env.
Variable self : EmailVerifier.



End FailedBatch.



(** ** More on the stages of the pipeline *)

Section MoreStageFacts.
Import PyStr.
Variable env : Env.
Variable self : EmailVerifier.

Lemma verdict_tokens_differ : "BAD" ≠ "200".
Proof. intros H%String.eqb_eq. discriminate H. Qed.

Lemma has_records_true r :
  has_records r = true ↔ ∃ x xs, r = Ok (x :: xs).
Proof.
  destruct r as [[|x xs]|e]; simpl; split; try done; eauto.
  - by intros (? & ? & ?).
  - by intros (? & ? & ?).
Qed.

Lemma split_second_inv sep s d :
  split sep s !! 1%nat = Some d → has_char sep s = true.
Proof.
  intros H. destruct (has_char sep s) eqn:E; [done|].
  by rewrite (split_absent _ _ E) in H.
Qed.

Lemma disposable_not_trusted d :
  d ∈ disposable_domains → is_trusted d = false.
Proof.
  unfold disposable_domains. rewrite !elem_of_union, !elem_of_singleton.
  intros H. repeat (destruct H as [H| ->]; [|reflexivity]). by subst.
Qed.

(** The three cases of [check_domain_reputation]. *)
Lemma check_domain_reputation_eq d :
  check_domain_reputation env d
  = if is_trusted d then ([], Ok true)
    else if bool_decide (d ∈ disposable_domains) then ([], Ok false)
    else check_domain_exists env d.
Proof.
  unfold check_domain_reputation. destruct (is_trusted d); [done|].
  destruct (bool_decide _); [done|].
  rewrite try_except_default. by rewrite check_domain_exists_eq.
Qed.

Lemma check_domain_reputation_dns_only d ev :
  ev ∈ trace (check_domain_reputation env d) → is_smtp_event ev = false.
Proof.
  rewrite check_domain_reputation_eq.
  destruct (is_trusted d); [by intros ?%elem_of_nil|].
  destruct (bool_decide _); [by intros ?%elem_of_nil|].
  rewrite check_domain_exists_eq. simpl.
  intros [->|?%elem_of_nil]%elem_of_cons; done.
Qed.

(** The probe without a mail exchanger. *)
Lemma probe_without_exchanger email domain :
  split "@" email !! 1%nat = Some domain →
  has_records (dns_resolve env domain RdMX) = false →
  test_smtp_connection env self email = ([DnsQuery domain RdMX], Ok false).
Proof.
  intros Hd Hmx. unfold test_smtp_connection.
  rewrite (index_some _ _ _ Hd), bind_ret. unfold resolve, call.
  by destruct (dns_resolve env domain RdMX) as [[|x xs]|e].
Qed.

(** What an answer [True] of the probe tells. *)
Lemma probe_true_inv email :
  outcome (test_smtp_connection env self email) = Ok true →
  ∃ domain host rest c0 c1 r q,
    split "@" email !! 1%nat = Some domain
    ∧ dns_resolve env domain RdMX = Ok (host :: rest)
    ∧ smtp_connect env host 25 = Ok c0
    ∧ smtp_reply env host HELO (sending_domain self) = Ok c1
    ∧ smtp_reply env host MAIL ("test@" +:+ sending_domain self) = Ok 250
    ∧ smtp_reply env host RCPT email = Ok r
    ∧ smtp_reply env host QUIT "" = Ok q
    ∧ (r = 250 ∨ r = 251).
Proof.
  intros H.
  destruct (split "@" email !! 1%nat) as [domain|] eqn:Hd.
  2:{ unfold test_smtp_connection in H. by rewrite (index_none _ _ Hd) in H. }
  destruct (has_records (dns_resolve env domain RdMX)) eqn:Hmx.
  2:{ by rewrite (probe_without_exchanger _ _ Hd Hmx) in H. }
  apply has_records_true in Hmx as (host & rest & Hmx).
  destruct (smtp_connect env host 25) as [c0|x] eqn:Hc.
  2:{ by rewrite (probe_cannot_connect _ _ _ _ _ _ _ Hd Hmx Hc) in H. }
  destruct (smtp_reply env host HELO (sending_domain self)) as [c1|x] eqn:Hh.
  2:{ unfold test_smtp_connection in H.
      rewrite (index_some _ _ _ Hd), bind_ret in H.
      unfold resolve, server_connect, server_cmd, call in H.
      rewrite Hmx, bind_prepend in H.
      rewrite (index_some (host :: rest) 0 host eq_refl), bind_ret in H.
      by rewrite Hc, bind_prepend, Hh, bind_raise in H. }
  rewrite (test_smtp_connection_connected _ _ _ _ _ _ _ _ Hd Hmx Hc Hh) in H.
  rewrite outcome_prepend, try_except_default in H.
  unfold server_cmd, call in H.
  destruct (smtp_reply env host MAIL _) as [m|x] eqn:Hm; [|done].
  rewrite bind_prepend, outcome_prepend in H.
  destruct (Z.eqb_spec m 250) as [->|Hne]; simpl negb in H; cbv iota in H.
  - destruct (smtp_reply env host RCPT email) as [r|x] eqn:Hr; [|done].
    rewrite bind_prepend, outcome_prepend in H.
    destruct (smtp_reply env host QUIT "") as [q|x] eqn:Hq; [|done].
    rewrite bind_prepend, outcome_prepend in H. simpl in H.
    exists domain, host, rest, c0, c1, r, q. repeat split; try done.
    injection H as H. apply orb_true_iff in H as [H|H]; apply Z.eqb_eq in H; auto.
  - by destruct (smtp_reply env host QUIT "").
Qed.

(** What a verdict "200" tells. *)
Lemma verify_200_inv e :
  outcome (verify_email_comprehensive env self e) = Ok "200" →
  ∃ d, split "@" (strip (lower e)) !! 1%nat = Some d
       ∧ validate_email_format (strip (lower e)) = true
       ∧ has_records (dns_resolve env d RdA) = true
       ∧ has_records (dns_resolve env d RdMX) = true
       ∧ outcome (check_domain_reputation env d) = Ok true
       ∧ outcome (test_smtp_connection env self (strip (lower e))) = Ok true.
Proof.
  unfold verify_email_comprehensive.
  destruct (falsy e || negb (has_char "@" e)) eqn:G; [done|].
  apply guard_false in G. destruct (split_normalized e G) as [d Hd].
  rewrite (index_some _ _ _ Hd), bind_ret.
  destruct (validate_email_format _) eqn:Hf; simpl negb; cbv iota; [|done].
  rewrite check_domain_exists_eq, bind_prepend, outcome_prepend.
  destruct (has_records (dns_resolve env d RdA)) eqn:Ha;
    simpl negb; cbv iota; [|done].
  rewrite check_domain_mx_record_eq, bind_prepend, outcome_prepend.
  destruct (has_records (dns_resolve env d RdMX)) eqn:Hmx;
    simpl negb; cbv iota; [|done].
  destruct (check_domain_reputation_ok env d) as [b Hb].
  destruct (check_domain_reputation env d) as [t r] eqn:Hrep.
  simpl in Hb. subst r.
  rewrite bind_prepend, outcome_prepend.
  destruct b; simpl negb; cbv iota; [|done].
  rewrite try_except_default.
  destruct (test_smtp_connection_ok env self _ _ Hd) as [b Hb].
  destruct (test_smtp_connection env self (strip (lower e))) as [t' r].
  simpl in Hb. subst r. rewrite bind_prepend, outcome_prepend.
  destruct b; simpl; [|intros [= H]; by apply verdict_tokens_differ in H].
  intros _. exists d. repeat split; try done. by rewrite Hrep.
Qed.

(** Before the probe, the pipeline only asks the DNS. *)
Lemma verify_smtp_event_inv e ev :
  ev ∈ trace (verify_email_comprehensive env self e) →
  is_smtp_event ev = true →
  ∃ d, split "@" (strip (lower e)) !! 1%nat = Some d
       ∧ validate_email_format (strip (lower e)) = true
       ∧ has_records (dns_resolve env d RdA) = true
       ∧ has_records (dns_resolve env d RdMX) = true
       ∧ outcome (check_domain_reputation env d) = Ok true.
Proof.
  unfold verify_email_comprehensive.
  destruct (falsy e || negb (has_char "@" e)) eqn:G; [by intros ?%elem_of_nil|].
  apply guard_false in G. destruct (split_normalized e G) as [d Hd].
  rewrite (index_some _ _ _ Hd), bind_ret.
  destruct (validate_email_format _) eqn:Hf; simpl negb; cbv iota;
    [|by intros ?%elem_of_nil].
  rewrite check_domain_exists_eq, bind_prepend, trace_prepend.
  destruct (has_records (dns_resolve env d RdA)) eqn:Ha; simpl negb; cbv iota.
  2:{ simpl. intros [->|?%elem_of_nil]%elem_of_cons; done. }
  rewrite check_domain_mx_record_eq, bind_prepend, trace_prepend.
  destruct (has_records (dns_resolve env d RdMX)) eqn:Hmx; simpl negb; cbv iota.
  2:{ simpl. intros [->|[->|?%elem_of_nil]%elem_of_cons]%elem_of_cons; done. }
  destruct (check_domain_reputation_ok env d) as [b Hb].
  pose proof (check_domain_reputation_dns_only d) as Hdns.
  destruct (check_domain_reputation env d) as [t r] eqn:Hrep.
  simpl in Hb, Hdns. subst r.
  rewrite bind_prepend, trace_prepend.
  destruct b; simpl negb; cbv iota.
  - intros _ _. exists d. repeat split; try done. by rewrite Hrep.
  - simpl. rewrite app_nil_r.
    intros [->|[->|Hin]%elem_of_cons]%elem_of_cons; try done.
    intros Hs. by rewrite (Hdns _ Hin) in Hs.
Qed.

End MoreStageFacts.

(** ** Further properties of the pipeline *)

(** X1. The two DNS checks never raise: each makes exactly one query, of
    its record type, and answers [True] exactly when the resolver returned
    at least one record; a resolver exception or an empty answer gives
    [False]. *)
Theorem dns_checks_absorb_failures (env : Env) (d : string) :
  (trace (check_domain_exists env d) = [DnsQuery d RdA]
   ∧ (outcome (check_domain_exists env d) = Ok true
      ∨ outcome (check_domain_exists env d) = Ok false)
   ∧ (outcome (check_domain_exists env d) = Ok true
      ↔ ∃ r rs, dns_resolve env d RdA = Ok (r :: rs)))
  ∧ (trace (check_domain_mx_record env d) = [DnsQuery d RdMX]
     ∧ (outcome (check_domain_mx_record env d) = Ok true
        ∨ outcome (check_domain_mx_record env d) = Ok false)
     ∧ (outcome (check_domain_mx_record env d) = Ok true
        ↔ ∃ r rs, dns_resolve env d RdMX = Ok (r :: rs))).
Proof.
  rewrite check_domain_exists_eq, check_domain_mx_record_eq. simpl.
  split; (split; [done|]; split;
          [destruct (has_records _); auto
          |rewrite <- has_records_true; split; [by intros [= ->]|by intros ->]]).
Qed.

(** X2. A domain of the disposable list fails the reputation check without
    any DNS query, whatever the DNS would answer; a domain that is neither
    trusted nor disposable gets the answer, and the query, of the existence
    check. *)
Theorem reputation_of_untrusted_domains (env : Env) (d : string) :
  (d ∈ disposable_domains → check_domain_reputation env d = ([], Ok false))
  ∧ (is_trusted d = false → d ∉ disposable_domains →
     check_domain_reputation env d = check_domain_exists env d).
Proof.
  rewrite check_domain_reputation_eq. split.
  - intros Hd. rewrite (disposable_not_trusted d Hd).
    by rewrite bool_decide_eq_true_2.
  - intros -> Hd. by rewrite bool_decide_eq_false_2.
Qed.

(** A disposable domain that resolves, and an unknown one that does not. *)
Lemma reputation_of_untrusted_domains_witness :
  check_domain_reputation env_accepting "mailinator.com" = ([], Ok false)
  ∧ check_domain_reputation env_accepting "evil.org"
    = check_domain_exists env_accepting "evil.org".
Proof.
  destruct (reputation_of_untrusted_domains env_accepting "mailinator.com")
    as [H1 _].
  destruct (reputation_of_untrusted_domains env_accepting "evil.org")
    as [_ H2].
  split.
  - apply H1. by vm_compute.
  - apply H2; [reflexivity|]. by vm_compute.
Defined.

(** X3. An address whose domain is on the disposable list gets "BAD" in
    every environment, and no connection to a mail server is opened and no
    SMTP command sent for it. *)
Theorem disposable_address_is_rejected (env : Env) (self : EmailVerifier)
    (e d : string) :
  PyStr.split "@" (PyStr.strip (PyStr.lower e)) !! 1%nat = Some d →
  d ∈ disposable_domains →
  outcome (verify_email_comprehensive env self e) = Ok "BAD"
  ∧ ∀ ev, ev ∈ trace (verify_email_comprehensive env self e) →
          is_smtp_event ev = false.
Proof.
  intros Hd Hdis.
  assert (outcome (check_domain_reputation env d) = Ok false) as Hrep.
  { rewrite check_domain_reputation_eq, (disposable_not_trusted d Hdis).
    by rewrite bool_decide_eq_true_2. }
  split.
  - destruct (verify_email_comprehensive_verdict env self e) as [H|H]; [|done].
    apply verify_200_inv in H as (d' & Hd' & _ & _ & _ & Hrep' & _).
    congruence.
  - intros ev Hin. destruct (is_smtp_event ev) eqn:Hs; [|done].
    destruct (verify_smtp_event_inv env self e ev Hin Hs)
      as (d' & Hd' & _ & _ & _ & Hrep').
    congruence.
Qed.

(** An address at a disposable domain, with capitals and spaces around. *)
Lemma disposable_address_is_rejected_witness :
  outcome (verify_email_comprehensive env_accepting default_verifier
             " Someone@Mailinator.COM ") = Ok "BAD".
Proof.
  apply (disposable_address_is_rejected env_accepting default_verifier
           " Someone@Mailinator.COM " "mailinator.com").
  - reflexivity.
  - by vm_compute.
Defined.

(** X4. The pipeline never raises, in any environment and for any string:
    it returns "200" or "BAD"; and for the empty string or a string
    without [@] it returns "BAD" without any call. *)
Theorem pipeline_never_raises (env : Env) (self : EmailVerifier) (e : string) :
  (outcome (verify_email_comprehensive env self e) = Ok "200"
   ∨ outcome (verify_email_comprehensive env self e) = Ok "BAD")
  ∧ (PyStr.has_char "@" e = false →
     verify_email_comprehensive env self e = ([], Ok "BAD")).
Proof.
  split; [apply verify_email_comprehensive_verdict|].
  intros H. unfold verify_email_comprehensive. rewrite H.
  by rewrite orb_true_r.
Qed.

Lemma pipeline_never_raises_witness :
  verify_email_comprehensive env_unreachable default_verifier "" = ([], Ok "BAD").
Proof.
  apply (proj2 (pipeline_never_raises env_unreachable default_verifier "")).
  reflexivity.
Defined.

(** X5. A verdict "200" is only given when the normalized address passed
    the format check, its domain has an A record and a first MX host, and
    that host answered 250 to MAIL FROM and 250 or 251 to RCPT TO for this
    address. *)
Theorem verified_means_accepted (env : Env) (self : EmailVerifier) (e : string) :
  outcome (verify_email_comprehensive env self e) = Ok "200" →
  ∃ d host rest r,
    PyStr.split "@" (PyStr.strip (PyStr.lower e)) !! 1%nat = Some d
    ∧ validate_email_format (PyStr.strip (PyStr.lower e)) = true
    ∧ has_records (dns_resolve env d RdA) = true
    ∧ dns_resolve env d RdMX = Ok (host :: rest)
    ∧ smtp_reply env host MAIL ("test@" +:+ sending_domain self) = Ok 250
    ∧ smtp_reply env host RCPT (PyStr.strip (PyStr.lower e)) = Ok r
    ∧ (r = 250 ∨ r = 251).
Proof.
  intros H. apply verify_200_inv in H as (d & Hd & Hf & Ha & _ & _ & Hp).
  apply probe_true_inv in Hp
    as (d' & host & rest & c0 & c1 & r & q & Hd' & Hmx & _ & _ & Hm & Hr & _ & Hc).
  exists d, host, rest, r. repeat split; try done. congruence.
Qed.

Lemma verified_means_accepted_witness :
  ∃ d host rest r,
    PyStr.split "@" "info@gmail.com" !! 1%nat = Some d
    ∧ validate_email_format "info@gmail.com" = true
    ∧ has_records (dns_resolve env_accepting d RdA) = true
    ∧ dns_resolve env_accepting d RdMX = Ok (host :: rest)
    ∧ smtp_reply env_accepting host MAIL "test@gatesweb.top" = Ok 250
    ∧ smtp_reply env_accepting host RCPT "info@gmail.com" = Ok r
    ∧ (r = 250 ∨ r = 251).
Proof.
  apply (verified_means_accepted env_accepting default_verifier "info@gmail.com").
  reflexivity.
Defined.

(** X6. The pipeline touches a mail server only after the format check,
    the A lookup, the MX lookup and the reputation check have all passed:
    a trace with an SMTP connection or command implies the four. *)
Theorem smtp_only_after_checks (env : Env) (self : EmailVerifier)
    (e : string) (ev : event) :
  ev ∈ trace (verify_email_comprehensive env self e) →
  is_smtp_event ev = true →
  ∃ d, PyStr.split "@" (PyStr.strip (PyStr.lower e)) !! 1%nat = Some d
       ∧ validate_email_format (PyStr.strip (PyStr.lower e)) = true
       ∧ has_records (dns_resolve env d RdA) = true
       ∧ has_records (dns_resolve env d RdMX) = true
       ∧ outcome (check_domain_reputation env d) = Ok true.
Proof. apply verify_smtp_event_inv. Qed.

Lemma smtp_only_after_checks_witness :
  ∃ d, PyStr.split "@" "info@gmail.com" !! 1%nat = Some d
       ∧ validate_email_format "info@gmail.com" = true
       ∧ has_records (dns_resolve env_unreachable d RdA) = true
       ∧ has_records (dns_resolve env_unreachable d RdMX) = true
       ∧ outcome (check_domain_reputation env_unreachable d) = Ok true.
Proof.
  apply (smtp_only_after_checks env_unreachable default_verifier "info@gmail.com"
           (SmtpConnect "gmail-smtp-in.l.google.com" 25)).
  - vm_compute. repeat constructor.
  - reflexivity.
Defined.

(** X7. Called on an address without [@], the probe raises IndexError
    before any call; on an address with [@] it never raises; and when the
    MX lookup raises or returns no record it answers [False] after that one
    query, without opening a connection. *)
Theorem probe_edge_cases (env : Env) (self : EmailVerifier) (email : string) :
  (PyStr.has_char "@" email = false →
   test_smtp_connection env self email = ([], Raise IndexError))
  ∧ (PyStr.has_char "@" email = true →
     ∃ b, outcome (test_smtp_connection env self email) = Ok b)
  ∧ (∀ domain, PyStr.split "@" email !! 1%nat = Some domain →
               has_records (dns_resolve env domain RdMX) = false →
               test_smtp_connection env self email
               = ([DnsQuery domain RdMX], Ok false)).
Proof.
  split; [|split].
  - intros H. unfold test_smtp_connection.
    by rewrite (split_absent _ _ H), (index_none [email] 1 eq_refl).
  - intros H. destruct (split_second _ _ H) as [d Hd].
    by apply (test_smtp_connection_ok env self email d).
  - apply probe_without_exchanger.
Qed.

Lemma probe_edge_cases_witness :
  test_smtp_connection env_accepting default_verifier "not-an-email"
  = ([], Raise IndexError)
  ∧ test_smtp_connection env_accepting default_verifier "x@evil.org"
    = ([DnsQuery "evil.org" RdMX], Ok false).
Proof.
  split.
  - apply (proj1 (probe_edge_cases env_accepting default_verifier "not-an-email")).
    reflexivity.
  - apply (proj2 (proj2 (probe_edge_cases env_accepting default_verifier
                           "x@evil.org")) "evil.org"); reflexivity.
Defined.

Section MoreFormatFacts.
Import PyStr.

Lemma lower_char_is_newline c : Ascii.eqb (lower_char c) "010" = Ascii.eqb c "010".
Proof. destruct c as [[] [] [] [] [] [] [] []]; vm_compute; congruence. Qed.

Lemma has_char_lower_newline s : has_char "010" (lower s) = has_char "010" s.
Proof.
  induction s as [|c s IH]; simpl; [done|].
  by rewrite lower_char_is_newline, IH.
Qed.

End MoreFormatFacts.

(** X8. [validate_email_format] accepts exactly the strings whose
    lower-cased form is local@host.tld, the three parts being non-empty
    words over the pattern's classes and the last one two letters or more,
    optionally followed by one newline; it does not depend on the case of
    the letters; and an accepted address without a newline is still
    accepted with a newline added at its end. *)
Theorem validate_email_format_spec (e : string) :
  (validate_email_format e = true
   ↔ ∃ loc host tld nl,
       PyStr.lower e = loc +:+ String "@" (host +:+ String "." (tld +:+ nl))
       ∧ loc ≠ "" ∧ PyStr.all_chars local_class loc = true
       ∧ host ≠ "" ∧ PyStr.all_chars domain_class host = true
       ∧ (2 ≤ String.length tld)%nat ∧ PyStr.all_chars is_letter tld = true
       ∧ (nl = "" ∨ nl = String "010" ""))
  ∧ validate_email_format (PyStr.lower e) = validate_email_format e
  ∧ (validate_email_format e = true → PyStr.has_char "010" e = false →
     validate_email_format (e +:+ String "010" "") = true).
Proof.
  split; [apply email_pattern_spec|]. split.
  - unfold validate_email_format. by rewrite lower_idem.
  - unfold validate_email_format. rewrite !email_pattern_spec.
    intros (loc & host & tld & nl & Hs & Hl1 & Hl2 & Hh1 & Hh2 & Ht1 & Ht2 & Hnl) Hno.
    destruct Hnl as [->| ->].
    + exists loc, host, tld, (String "010" "").
      rewrite lower_app, Hs, app_empty_r. simpl PyStr.lower.
      repeat split; try done; [|by right].
      change (PyStr.lower_char "010") with "010"%char.
      by rewrite app_assoc_str, app_cons, app_assoc_str, app_cons.
    + rewrite <- has_char_lower_newline, Hs in Hno.
      repeat (rewrite has_char_app in Hno; simpl in Hno).
      by rewrite !orb_true_r in Hno.
Qed.

Lemma validate_email_format_spec_witness :
  validate_email_format (String.append "a@b.co" (String "010" "")) = true.
Proof.
  apply (proj2 (proj2 (validate_email_format_spec "a@b.co"))); reflexivity.
Defined.

(** ** Further properties of batches and of the run *)

Section MoreBatchFacts.
Variable env : Env.
Variable self : EmailVerifier.

(** One turn of the loop of [verify_email_batch], calls included. *)
Lemma verify_email_batch_step_eq results e :
  try_except
    (result ← verify_email_comprehensive env self e;
     mret (results ++ [result]))
    (λ _, mret (results ++ ["BAD"]))
  = (trace (verify_email_comprehensive env self e),
     Ok (results ++ [verdict env self e])).
Proof.
  unfold verdict.
  destruct (verify_email_comprehensive env self e) as [t [v|x]].
  - rewrite bind_ok. simpl. by rewrite app_nil_r.
  - simpl. by rewrite app_nil_r.
Qed.

Lemma verify_email_batch_from_eq results batch :
  verify_email_batch_from env self results batch
  = (concat ((λ e, trace (verify_email_comprehensive env self e)) <$> batch),
     Ok (results ++ (verdict env self <$> batch))).
Proof.
  revert results. induction batch as [|e batch IH]; intros results.
  - simpl. by rewrite app_nil_r.
  - cbn [verify_email_batch_from]. rewrite verify_email_batch_step_eq, bind_ok, IH.
    simpl. by rewrite <- app_assoc.
Qed.

Lemma count_equal_cons v x l :
  count_equal v (x :: l)
  = ((if String.eqb v x then 1 else 0) + count_equal v l)%nat.
Proof. unfold count_equal. simpl. by destruct (String.eqb v x). Qed.

Lemma count_verdicts (l : list string) :
  Forall is_verdict l →
  (count_equal "200" l + count_equal "BAD" l = length l)%nat.
Proof.
  induction 1 as [|v l [-> | ->] _ IH]; [done| |];
    rewrite !count_equal_cons;
    [change (String.eqb "200" "200") with true;
     change (String.eqb "BAD" "200") with false
    |change (String.eqb "200" "BAD") with false;
     change (String.eqb "BAD" "BAD") with true];
    cbn [length]; cbv iota; lia.
Qed.

Lemma all_results_length order :
  order ≡ₚ seq 0 (length (make_batches (emails_of (companies self)))) →
  length (collect_results env self (make_batches (emails_of (companies self)))
            order [])
  = length (companies self).
Proof.
  intros Hp. rewrite (collect_results_length _ _ _ _ Hp), make_batches_concat.
  unfold emails_of. apply length_fmap.
Qed.

Lemma counts_after_run order :
  verified_count (fst (verify_all_emails env self order))
  = count_equal "200"
      (collect_results env self (make_batches (emails_of (companies self)))
         order [])
  ∧ bad_count (fst (verify_all_emails env self order))
    = count_equal "BAD"
        (collect_results env self (make_batches (emails_of (companies self)))
           order []).
Proof. unfold verify_all_emails. by destruct (length _ =? 0)%nat. Qed.

(** With as many results as records, the loop that writes the verdicts
    pairs result [i] with record [i]. *)
Lemma annotate_zip (rs : list string) (cs : list (gmap string string)) :
  length rs = length cs →
  annotate rs cs = zip_with (λ r c, <["email_verification" := r]> c) rs cs.
Proof.
  intros Hlen. apply list_eq. intros i.
  rewrite annotate_lookup, lookup_zip_with.
  destruct (cs !! i) as [c|] eqn:Hc; simpl.
  - destruct (lookup_lt_is_Some_2 rs i) as [r Hr].
    { rewrite Hlen. by apply lookup_lt_Some in Hc. }
    rewrite Hr. simpl. rewrite (nth_lookup_Some _ _ _ _ Hr).
    apply lookup_lt_Some in Hr. by apply Nat.ltb_lt in Hr as ->.
  - by destruct (rs !! i).
Qed.

Lemma filter_verified_zip (rs : list string) (cs : list (gmap string string)) :
  length rs = length cs →
  length (filter (λ company : gmap string string,
                    company !! "email_verification" = Some "200")
            (zip_with (λ r c, <["email_verification" := r]> c) rs cs))
  = count_equal "200" rs.
Proof.
  revert cs.
  induction rs as [|r rs IH]; intros [|c cs] Hlen; try done.
  simpl in Hlen. injection Hlen as Hlen. simpl zip_with.
  rewrite filter_cons, lookup_insert_eq, count_equal_cons.
  destruct (String.eqb_spec "200" r) as [<-|Hne].
  - rewrite decide_True by done. simpl. by rewrite IH.
  - rewrite decide_False by congruence. by apply IH.
Qed.

Lemma single_batch emails :
  (0 < length emails ≤ batch_size)%nat → make_batches emails = [emails].
Proof.
  intros Hlen.
  assert (length (make_batches emails) = 1%nat) as H1.
  { rewrite make_batches_length. unfold batch_size in *.
    symmetry. apply Nat.div_unique with (r := (length emails - 1)%nat); lia. }
  assert (make_batches emails !! 0%nat = Some emails) as H0.
  { rewrite make_batches_lookup by (simpl; lia).
    simpl. by rewrite drop_0, take_ge by lia. }
  destruct (make_batches emails) as [|b [|b' bs]]; try done.
  simpl in H0. by injection H0 as ->.
Qed.

Lemma dict_to_list_some fieldnames (rowdict : gmap string string) row :
  dict_to_list fieldnames rowdict = Some row ↔
  dom rowdict ⊆ list_to_set fieldnames
  ∧ row = (λ key, default "" (rowdict !! key)) <$> fieldnames.
Proof.
  unfold dict_to_list. case_bool_decide; split.
  - by intros [= <-].
  - by intros [_ ->].
  - done.
  - by intros [? _].
Qed.

End MoreBatchFacts.

(** X9. [verify_email_batch] never raises: it returns one verdict per
    address, in the order of the batch, the verdict at place [i] being the
    pipeline's verdict for address [i]; and its calls are those of the
    addresses one after the other, in that order. *)
Theorem batch_is_sequential (env : Env) (self : EmailVerifier)
    (batch : list string) :
  ∃ results,
    verify_email_batch env self batch
    = (concat ((λ e, trace (verify_email_comprehensive env self e)) <$> batch),
       Ok results)
    ∧ length results = length batch
    ∧ ∀ i e, batch !! i = Some e →
             ∃ v, results !! i = Some v
                  ∧ outcome (verify_email_comprehensive env self e) = Ok v.
Proof.
  exists (verdict env self <$> batch). split; [|split].
  - unfold verify_email_batch. by rewrite verify_email_batch_from_eq.
  - apply length_fmap.
  - intros i e Hi. exists (verdict env self e).
    rewrite list_lookup_fmap, Hi. split; [done|]. unfold verdict.
    by destruct (verify_email_comprehensive_verdict env self e) as [-> | ->].
Qed.

Lemma counts_sum_after_run (env : Env) (self : EmailVerifier) (order : list nat) :
  order ≡ₚ seq 0 (length (make_batches (emails_of (companies self)))) →
  (verified_count (fst (verify_all_emails env self order))
   + bad_count (fst (verify_all_emails env self order))
   = length (companies self))%nat
  ∧ length (companies (fst (verify_all_emails env self order)))
    = length (companies self).
Proof.
  intros Hp. destruct (counts_after_run env self order) as [-> ->]. split.
  - rewrite count_verdicts by apply collect_results_verdicts.
    by apply all_results_length.
  - rewrite companies_after_run. apply length_imap.
Qed.

(** X10. When every batch completes once, in whatever order and with
    whatever thread failures, the two counters left by the run add up to
    the number of records, and the records are as many as before. *)
Theorem counts_partition_the_records (env : Env) (self : EmailVerifier)
    (order : list nat) :
  order ≡ₚ seq 0 (length (make_batches (emails_of (companies self)))) →
  (verified_count (fst (verify_all_emails env self order))
   + bad_count (fst (verify_all_emails env self order))
   = length (companies self))%nat
  ∧ length (companies (fst (verify_all_emails env self order)))
    = length (companies self).
Proof. apply counts_sum_after_run. Qed.

Lemma counts_partition_the_records_witness :
  (verified_count (fst (verify_all_emails env_first_batch_fails verifier_51
                          [1; 0]%nat))
   + bad_count (fst (verify_all_emails env_first_batch_fails verifier_51
                       [1; 0]%nat))
   = 51)%nat.
Proof.
  apply (counts_partition_the_records env_first_batch_fails verifier_51
           [1; 0]%nat).
  apply perm_swap.
Defined.

(** X11. On a non-empty list of records the run ends normally, whatever
    the completion order of the batches and whatever threads fail: it
    returns the annotated records, which are also the records the verifier
    holds afterwards. *)
Theorem nonempty_run_returns (env : Env) (self : EmailVerifier)
    (order : list nat) :
  companies self ≠ [] →
  order ≡ₚ seq 0 (length (make_batches (emails_of (companies self)))) →
  snd (verify_all_emails env self order)
  = Ok (companies (fst (verify_all_emails env self order))).
Proof. apply verify_all_emails_returns. Qed.

Lemma nonempty_run_returns_witness :
  snd (verify_all_emails env_first_batch_fails verifier_51 [1; 0]%nat)
  = Ok (companies (fst (verify_all_emails env_first_batch_fails verifier_51
                          [1; 0]%nat))).
Proof.
  apply (nonempty_run_returns env_first_batch_fails verifier_51 [1; 0]%nat).
  - discriminate.
  - apply perm_swap.
Defined.

(** X12. With at most fifty records there is one batch, and then every
    record gets the verdict of its own address, or "BAD" when the thread
    of that batch failed. *)
Theorem single_batch_run_aligns (env : Env) (self : EmailVerifier)
    (order : list nat) (i : nat) (record : gmap string string) :
  (length (companies self) ≤ batch_size)%nat →
  order ≡ₚ seq 0 (length (make_batches (emails_of (companies self)))) →
  companies self !! i = Some record →
  verification_at i (verify_all_emails env self order)
  = Some (match worker_fault env 0 with
          | Some _ => "BAD"
          | None => verdict env self (default "" (record !! "email"))
          end).
Proof.
  intros Hle Hp Hi.
  assert (i < length (companies self))%nat as Hlt by by apply lookup_lt_Some in Hi.
  assert (length (emails_of (companies self)) = length (companies self)) as Hlen
    by apply length_fmap.
  assert (make_batches (emails_of (companies self)) = [emails_of (companies self)])
    as Hb by (apply single_batch; lia).
  assert (order = [0%nat]) as ->.
  { rewrite Hb in Hp. simpl in Hp. by apply Permutation_singleton_r in Hp. }
  pose proof (collect_results_in_order_lookup env self (emails_of (companies self)) 0 i)
    as Hres.
  rewrite Hb in Hres.
  change (0 * batch_size + i)%nat with i in Hres.
  change (seq 0 (length [emails_of (companies self)])) with [0%nat] in Hres.
  specialize (Hres ltac:(lia) ltac:(unfold batch_size in *; lia)).
  unfold verification_at.
  rewrite (companies_after_run env self), annotate_lookup, Hi, Hb.
  cbn [fmap option_fmap option_map mbind option_bind].
  rewrite lookup_insert_eq. f_equal.
  set (rs := collect_results _ _ _ _ _) in *.
  assert (rs !! i = Some (match worker_fault env 0 with
                          | Some _ => "BAD"
                          | None => verdict env self (default "" (record !! "email"))
                          end)) as Hv.
  { rewrite Hres. unfold batch_outcome, future_result. simpl.
    destruct (worker_fault env 0).
    - apply lookup_replicate_2. lia.
    - rewrite verify_email_batch_outcome. unfold emails_of.
      by rewrite !list_lookup_fmap, Hi. }
  rewrite (nth_lookup_Some _ _ _ _ Hv).
  apply lookup_lt_Some in Hv. by apply Nat.ltb_lt in Hv as ->.
Qed.

Lemma single_batch_run_aligns_witness :
  verification_at 1
    (verify_all_emails env_accepting
       (load_companies [company_of "Emlak A" "not-an-email";
                        company_of "Emlak B" "info@gmail.com"] default_verifier)
       [0%nat])
  = Some "200".
Proof.
  apply (single_batch_run_aligns env_accepting
           (load_companies [company_of "Emlak A" "not-an-email";
                            company_of "Emlak B" "info@gmail.com"]
              default_verifier)
           [0%nat] 1 (company_of "Emlak B" "info@gmail.com")).
  - simpl. unfold batch_size. lia.
  - reflexivity.
  - reflexivity.
Defined.

(** ** The filter, the statistics and the saved file *)

(** X13. After a run in which every batch completed once,
    [filter_verified_companies] returns as many records as the counter of
    verified addresses says, and each of them carries "200". *)
Theorem filter_matches_verified_count (env : Env) (self : EmailVerifier)
    (order : list nat) :
  order ≡ₚ seq 0 (length (make_batches (emails_of (companies self)))) →
  length (filter_verified_companies (fst (verify_all_emails env self order)))
  = verified_count (fst (verify_all_emails env self order))
  ∧ Forall (λ company : gmap string string,
              company !! "email_verification" = Some "200")
      (filter_verified_companies (fst (verify_all_emails env self order))).
Proof.
  intros Hp. split.
  - unfold filter_verified_companies.
    rewrite companies_after_run, (proj1 (counts_after_run env self order)).
    pose proof (all_results_length env self order Hp) as Hlen.
    rewrite annotate_zip by done. by apply filter_verified_zip.
  - unfold filter_verified_companies. apply Forall_forall.
    by intros c [? _]%list_elem_of_filter.
Qed.

Lemma filter_matches_verified_count_witness :
  length (filter_verified_companies
            (fst (verify_all_emails env_accepting verifier_51 [1; 0]%nat)))
  = verified_count (fst (verify_all_emails env_accepting verifier_51 [1; 0]%nat)).
Proof.
  apply (filter_matches_verified_count env_accepting verifier_51 [1; 0]%nat).
  apply perm_swap.
Defined.

(** X14. [get_verification_statistics] returns the empty dictionary for a
    verifier without records, so its division is never by zero; after a
    run on a non-empty list in which every batch completed once, the total
    is the number of records and equals verified plus bad, the divisor of
    the success rate is positive and not less than its dividend, and the
    expansion flag is set exactly below 1000 verified addresses. *)
Theorem statistics_after_run (env : Env) (self : EmailVerifier)
    (order : list nat) :
  (companies self = [] → get_verification_statistics self = None)
  ∧ (companies self ≠ [] →
     order ≡ₚ seq 0 (length (make_batches (emails_of (companies self)))) →
     ∃ stats,
       get_verification_statistics (fst (verify_all_emails env self order))
       = Some stats
       ∧ total_companies stats = length (companies self)
       ∧ (verified_emails stats + bad_emails stats = total_companies stats)%nat
       ∧ (0 < snd (success_rate stats))%nat
       ∧ (fst (success_rate stats) ≤ snd (success_rate stats))%nat
       ∧ (needs_expansion stats = true ↔ (verified_emails stats < 1000)%nat)).
Proof.
  split.
  - intros H. unfold get_verification_statistics. by rewrite H.
  - intros Hne Hp.
    destruct (counts_sum_after_run env self order Hp) as [Hsum Hlen].
    unfold get_verification_statistics.
    destruct (companies (fst (verify_all_emails env self order))) as [|c cs] eqn:Hcs.
    { simpl in Hlen. destruct (companies self); [done|discriminate]. }
    eexists. split; [done|]. simpl.
    destruct (companies self) as [|c0 cs0]; [done|]. simpl in *.
    repeat split; try lia.
    + by intros ?%Nat.ltb_lt.
    + by intros ?%Nat.ltb_lt.
Qed.

Lemma statistics_after_run_witness :
  ∃ stats,
    get_verification_statistics
      (fst (verify_all_emails env_accepting verifier_51 [1; 0]%nat)) = Some stats
    ∧ total_companies stats = 51%nat
    ∧ (verified_emails stats + bad_emails stats = total_companies stats)%nat.
Proof.
  destruct (proj2 (statistics_after_run env_accepting verifier_51 [1; 0]%nat))
    as (stats & H1 & H2 & H3 & _).
  - discriminate.
  - apply perm_swap.
  - exists stats. split; [exact H1|]. split; [exact H2|exact H3].
Defined.

(** Saving records whose fields are all among the columns. *)
Lemma save_succeeds (writable : string → bool) (files : disk)
    (self : EmailVerifier) (filename : string) :
  companies self ≠ [] → writable filename = true →
  Forall (λ company : gmap string string,
            dom company ⊆ list_to_set column_order) (companies self) →
  ∃ after,
    save_verified_csv writable files self filename = Saved filename after
    ∧ after !! filename
      = Some (column_order
              :: ((λ company : gmap string string,
                     (λ key, default "" (company !! key)) <$> column_order)
                  <$> companies self))
    ∧ ∀ other, other ≠ filename → after !! other = files !! other.
Proof.
  unfold save_verified_csv, disk in *.
  intros Hne Hw Hall. rewrite Hw.
  destruct (companies self) as [|c cs] eqn:Hcs; [done|]. simpl negb. cbv iota.
  rewrite <- Hcs in *. clear Hcs Hne.
  assert (mapM (dict_to_list column_order) (companies self)
          = Some ((λ company : gmap string string,
                     (λ key, default "" (company !! key)) <$> column_order)
                  <$> companies self)) as ->.
  { apply mapM_Some, Forall2_fmap_r, Forall_Forall2_diag.
    eapply Forall_impl; [exact Hall|]. intros company Hdom. simpl.
    by apply dict_to_list_some. }
  eexists. split; [done|]. split; [by rewrite lookup_insert_eq|].
  intros other Hne. by rewrite lookup_insert_ne.
Qed.

(** X15. [save_verified_csv] returns [None] and writes nothing when there
    is no record. Otherwise, the file being writable: when every record
    has its fields among the nine columns, it returns the file name and
    the file holds the header and then one row per record, in order, each
    field taken from the record and a missing one written as the empty
    string, the other files being untouched; when some record has a field
    outside the nine columns, it raises the writer's ValueError. *)
Theorem save_verified_csv_outcome (writable : string → bool) (files : disk)
    (self : EmailVerifier) (filename : string) :
  (companies self = [] →
   save_verified_csv writable files self filename = NothingToSave)
  ∧ (companies self ≠ [] → writable filename = false →
     save_verified_csv writable files self filename = SaveRaised OpenFailed)
  ∧ (companies self ≠ [] → writable filename = true →
     Forall (λ company : gmap string string,
               dom company ⊆ list_to_set column_order) (companies self) →
     ∃ after,
       save_verified_csv writable files self filename = Saved filename after
       ∧ after !! filename
         = Some (column_order
                 :: ((λ company : gmap string string,
                        (λ key, default "" (company !! key)) <$> column_order)
                     <$> companies self))
       ∧ ∀ other, other ≠ filename → after !! other = files !! other)
  ∧ (companies self ≠ [] → writable filename = true →
     ¬ Forall (λ company : gmap string string,
                 dom company ⊆ list_to_set column_order) (companies self) →
     save_verified_csv writable files self filename = SaveRaised ValueError).
Proof.
  unfold save_verified_csv, disk in *.
  split; [by intros ->|]. split; [|split].
  - intros Hne Hw. rewrite Hw. by destruct (companies self).
  - apply save_succeeds.
  - intros Hne Hw Hnot. rewrite Hw.
    destruct (companies self) as [|c cs] eqn:Hcs; [done|]. simpl negb. cbv iota.
    rewrite <- Hcs in *. clear Hcs Hne.
    destruct (mapM _ _) as [rows|] eqn:Hm; [|done].
    destruct Hnot. apply mapM_Some_1 in Hm.
    apply Forall_lookup. intros i company Hi.
    destruct (Forall2_lookup_l _ _ _ _ _ Hm Hi) as (row & _ & Hrow).
    by apply dict_to_list_some in Hrow as [? _].
Qed.

Lemma save_verified_csv_outcome_witness :
  save_verified_csv (λ _, true) ∅
    (load_companies [<["address" := "Kadikoy"]> (company_of "Emlak A" "a@b.co")]
       default_verifier)
    "istanbul_emlak_verified_emails.csv"
  = SaveRaised ValueError.
Proof.
  apply (save_verified_csv_outcome (λ _, true) ∅
           (load_companies
              [<["address" := "Kadikoy"]> (company_of "Emlak A" "a@b.co")]
              default_verifier)
           "istanbul_emlak_verified_emails.csv").
  - discriminate.
  - reflexivity.
  - intros H. apply Forall_cons in H as [H _].
    assert ("address" ∈ (list_to_set column_order : gset string)) as Hin.
    { apply H. by vm_compute. }
    by vm_compute in Hin.
Defined.

(** The record at place [i] after a run. *)
Lemma record_after_run (env : Env) (self : EmailVerifier) (order : list nat)
    (i : nat) (company : gmap string string) :
  companies self !! i = Some company →
  ∃ v, is_verdict v
       ∧ companies (fst (verify_all_emails env self order)) !! i
         = Some (<["email_verification" := v]> company).
Proof.
  intros Hi. rewrite companies_after_run, annotate_lookup, Hi. simpl.
  eexists. split; [|done].
  apply annotated_value_is_verdict, collect_results_verdicts.
Qed.

(** X16. Saving after a run: when the records given to the run are
    non-empty and have their fields among the nine columns, and the file
    is writable, the save succeeds; the file has the header and one row of
    nine fields per record, whose fifth field is "200" or "BAD" and whose
    other fields are those of the record given to the run. *)
Theorem saved_rows_carry_verdicts (env : Env) (self : EmailVerifier)
    (order : list nat) (writable : string → bool) (files : disk)
    (filename : string) :
  companies self ≠ [] → writable filename = true →
  Forall (λ company : gmap string string,
            dom company ⊆ list_to_set column_order) (companies self) →
  ∃ after rows,
    save_verified_csv writable files (fst (verify_all_emails env self order))
      filename = Saved filename after
    ∧ after !! filename = Some (column_order :: rows)
    ∧ length rows = length (companies self)
    ∧ ∀ i company, companies self !! i = Some company →
        ∃ row, rows !! i = Some row
               ∧ length row = 9%nat
               ∧ (row !! 4%nat = Some "200" ∨ row !! 4%nat = Some "BAD")
               ∧ ∀ k key, k ≠ 4%nat → column_order !! k = Some key →
                          row !! k = Some (default "" (company !! key)).
Proof.
  intros Hne Hw Hall.
  set (self' := fst (verify_all_emails env self order)).
  assert (length (companies self') = length (companies self)) as Hlen.
  { unfold self'. rewrite companies_after_run. apply length_imap. }
  assert (companies self' ≠ []) as Hne'.
  { intros H. rewrite H in Hlen. by destruct (companies self). }
  assert (Forall (λ company : gmap string string,
                    dom company ⊆ list_to_set column_order) (companies self'))
    as Hall'.
  { apply Forall_lookup. intros i c' Hi.
    unfold self' in Hi. rewrite companies_after_run, annotate_lookup in Hi.
    destruct (companies self !! i) as [c|] eqn:Hc; [|done].
    injection Hi as <-. rewrite dom_insert_L.
    pose proof (proj1 (Forall_lookup _ _) Hall i c Hc) as Hdom.
    apply union_subseteq. split; [|done].
    apply singleton_subseteq_l. by vm_compute. }
  destruct (save_succeeds writable files self' filename Hne' Hw Hall')
    as (after & Hsave & Hfile & _).
  eexists after, _. split; [exact Hsave|]. split; [exact Hfile|].
  split; [by rewrite length_fmap|].
  intros i company Hi.
  destruct (record_after_run env self order i company Hi)
    as (v & Hv & Hi').
  fold self' in Hi'. rewrite list_lookup_fmap, Hi'. simpl.
  eexists. split; [done|]. split; [done|]. split.
  - rewrite lookup_insert_eq. simpl. by destruct Hv as [-> | ->]; [left|right].
  - intros k key Hk Hkey.
    destruct k as [|[|[|[|[|[|[|[|[|k]]]]]]]]]; simpl in Hkey; try done;
      injection Hkey as <-; simpl; by rewrite lookup_insert_ne.
Qed.

Lemma saved_rows_carry_verdicts_witness :
  ∃ after rows,
    save_verified_csv (λ _, true) ∅
      (fst (verify_all_emails env_accepting
              (load_companies [company_of "Emlak A" "not-an-email";
                               company_of "Emlak B" "info@gmail.com"]
                 default_verifier) [0%nat]))
      "istanbul_emlak_verified_emails.csv"
    = Saved "istanbul_emlak_verified_emails.csv" after
    ∧ after !! "istanbul_emlak_verified_emails.csv" = Some (column_order :: rows)
    ∧ length rows = 2%nat.
Proof.
  destruct (saved_rows_carry_verdicts env_accepting
              (load_companies [company_of "Emlak A" "not-an-email";
                               company_of "Emlak B" "info@gmail.com"]
                 default_verifier)
              [0%nat] (λ _, true) ∅ "istanbul_emlak_verified_emails.csv")
    as (after & rows & H1 & H2 & H3 & _).
  - discriminate.
  - reflexivity.
  - constructor; [cbv beta; apply (bool_decide_unpack _); by vm_compute|].
    constructor; [cbv beta; apply (bool_decide_unpack _); by vm_compute|].
    constructor.
  - exists after, rows. split; [exact H1|]. split; [exact H2|exact H3].
Defined.

(** A batch of two addresses: two verdicts, the second one "200". *)
Lemma batch_is_sequential_witness :
  ∃ results,
    outcome (verify_email_batch env_accepting default_verifier
               ["not-an-email"; "info@gmail.com"]) = Ok results
    ∧ length results = 2%nat
    ∧ results !! 1%nat = Some "200".
Proof.
  destruct (batch_is_sequential env_accepting default_verifier
              ["not-an-email"; "info@gmail.com"]) as (results & H1 & H2 & H3).
  exists results. split; [by rewrite H1|]. split; [exact H2|].
  destruct (H3 1%nat "info@gmail.com" eq_refl) as (v & Hv & Hout).
  vm_compute in Hout. injection Hout as <-. exact Hv.
Defined.

Section TrustedReachesProbe.
Import PyStr.
Variable env : Env.
Variable self : EmailVerifier.

(** Once the mail exchanger is known, the probe tries to connect to it. *)
Lemma probe_connects email domain host rest :
  split "@" email !! 1%nat = Some domain →
  dns_resolve env domain RdMX = Ok (host :: rest) →
  ∃ t, trace (test_smtp_connection env self email)
       = DnsQuery domain RdMX :: SmtpConnect host 25 :: t.
Proof.
  intros Hd Hmx.
  destruct (smtp_connect env host 25) as [c0|x] eqn:Hc.
  2:{ rewrite (probe_cannot_connect _ _ _ _ _ _ _ Hd Hmx Hc). by exists []. }
  unfold test_smtp_connection.
  rewrite (index_some _ _ _ Hd), bind_ret.
  unfold resolve, server_connect, call. rewrite Hmx, bind_prepend.
  rewrite (index_some (host :: rest) 0 host eq_refl), bind_ret.
  rewrite Hc, bind_prepend, !try_except_prepend, prepend_prepend.
  rewrite trace_prepend. simpl. eauto.
Qed.

(** The calls of the pipeline when the four checks pass: the A lookup, the
    MX lookup, those of the reputation check, those of the probe. *)
Lemma verify_trace_after_checks e d :
  has_char "@" e = true →
  split "@" (strip (lower e)) !! 1%nat = Some d →
  validate_email_format (strip (lower e)) = true →
  has_records (dns_resolve env d RdA) = true →
  has_records (dns_resolve env d RdMX) = true →
  outcome (check_domain_reputation env d) = Ok true →
  trace (verify_email_comprehensive env self e)
  = [DnsQuery d RdA; DnsQuery d RdMX]
    ++ trace (check_domain_reputation env d)
    ++ trace (test_smtp_connection env self (strip (lower e))).
Proof.
  intros Hat Hd Hf Ha Hmx Hrep.
  destruct (test_smtp_connection_ok env self _ _ Hd) as [b Hb].
  unfold verify_email_comprehensive. rewrite Hat.
  destruct e as [|a e]; [done|]. cbn [falsy orb negb].
  rewrite (index_some _ _ _ Hd), bind_ret, Hf. cbn [negb].
  rewrite check_domain_exists_eq, Ha, bind_prepend, trace_prepend. cbn [negb].
  rewrite check_domain_mx_record_eq, Hmx, bind_prepend, trace_prepend. cbn [negb].
  destruct (check_domain_reputation env d) as [t3 r3]. simpl in Hrep. subst r3.
  rewrite bind_prepend, trace_prepend. cbn [negb].
  rewrite try_except_default.
  destruct (test_smtp_connection env self _) as [t4 r4]. simpl in Hb. subst r4.
  rewrite bind_prepend. simpl. by destruct b; simpl; rewrite app_nil_r.
Qed.

End TrustedReachesProbe.

(** X17. An address that passes the format check and whose domain is
    trusted, has an A record and has MX records is not rejected before the
    probe: the pipeline asks for the A and the MX records, asks the DNS
    nothing for the reputation, and then probes, connecting to the first MX
    host on port 25; its verdict is "200" exactly when the probe answers
    [True]. *)
Theorem trusted_domain_reaches_probe (env : Env) (self : EmailVerifier)
    (e d host : string) (rest : list string) :
  PyStr.split "@" (PyStr.strip (PyStr.lower e)) !! 1%nat = Some d →
  validate_email_format (PyStr.strip (PyStr.lower e)) = true →
  has_records (dns_resolve env d RdA) = true →
  dns_resolve env d RdMX = Ok (host :: rest) →
  is_trusted d = true →
  (∃ t, trace (verify_email_comprehensive env self e)
        = DnsQuery d RdA :: DnsQuery d RdMX :: DnsQuery d RdMX
          :: SmtpConnect host 25 :: t)
  ∧ (outcome (verify_email_comprehensive env self e) = Ok "200"
     ↔ outcome (test_smtp_connection env self (PyStr.strip (PyStr.lower e)))
       = Ok true).
Proof.
  intros Hd Hf Ha Hmx Htr.
  assert (PyStr.has_char "@" e = true) as Hat.
  { apply split_second_inv in Hd.
    by rewrite has_char_strip, has_char_lower_at in Hd. }
  assert (has_records (dns_resolve env d RdMX) = true) as Hmx'
    by (by rewrite Hmx).
  pose proof (check_domain_reputation_trusted env d Htr) as Hrep.
  assert (outcome (check_domain_reputation env d) = Ok true) as Hrep'
    by (by rewrite Hrep).
  split.
  - rewrite (verify_trace_after_checks env self e d Hat Hd Hf Ha Hmx' Hrep'), Hrep.
    destruct (probe_connects env self _ _ _ _ Hd Hmx) as [t ->]. simpl. eauto.
  - assert (outcome (check_domain_exists env d) = Ok true) as Ha'
      by (by rewrite check_domain_exists_eq, Ha).
    assert (outcome (check_domain_mx_record env d) = Ok true) as Hmx''
      by (by rewrite check_domain_mx_record_eq, Hmx').
    destruct (verify_after_checks env self e d Hat Hd Hf Ha' Hmx'' Hrep')
      as (b & Hb & ->).
    rewrite Hb. destruct b; split; try done;
      intros [= H]; by apply verdict_tokens_differ in H.
Qed.

Lemma trusted_domain_reaches_probe_witness :
  ∃ t, trace (verify_email_comprehensive env_unreachable default_verifier
                " Info@Gmail.com")
       = DnsQuery "gmail.com" RdA :: DnsQuery "gmail.com" RdMX
         :: DnsQuery "gmail.com" RdMX
         :: SmtpConnect "gmail-smtp-in.l.google.com" 25 :: t.
Proof.
  apply (trusted_domain_reaches_probe env_unreachable default_verifier
           " Info@Gmail.com" "gmail.com" "gmail-smtp-in.l.google.com" []);
    reflexivity.
Defined.

(** X18. When the batches complete in the order in which they were
    submitted: if no thread fails, every record gets the verdict of its
    own address; and every record of a batch whose thread failed gets
    "BAD". *)
Theorem submission_order_run_aligns (env : Env) (self : EmailVerifier) :
  (∀ i record,
      (∀ k, worker_fault env k = None) →
      companies self !! i = Some record →
      verification_at i
        (verify_all_emails env self
           (seq 0 (length (make_batches (emails_of (companies self))))))
      = Some (verdict env self (default "" (record !! "email"))))
  ∧ (∀ k j x,
        worker_fault env k = Some x →
        (k * batch_size + j < length (companies self))%nat →
        (j < batch_size)%nat →
        verification_at (k * batch_size + j)
          (verify_all_emails env self
             (seq 0 (length (make_batches (emails_of (companies self))))))
        = Some "BAD").
Proof.
  split; [intros i record; apply in_order_run_aligns|].
  intros k j x Hf Hi Hj.
  destruct (lookup_lt_is_Some_2 (companies self) (k * batch_size + j)%nat Hi)
    as [record Hrec].
  assert (length (emails_of (companies self)) = length (companies self)) as Hlen
    by apply length_fmap.
  pose proof (failed_batch_in_order env self (emails_of (companies self)) k j x Hf
                ltac:(lia) Hj) as Hv.
  unfold verification_at.
  rewrite (companies_after_run env self), annotate_lookup, Hrec.
  cbn [fmap option_fmap option_map mbind option_bind].
  rewrite lookup_insert_eq. f_equal.
  rewrite (nth_lookup_Some _ _ _ _ Hv).
  apply lookup_lt_Some in Hv. by apply Nat.ltb_lt in Hv as ->.
Qed.

Lemma submission_order_run_aligns_witness :
  verification_at 50 (verify_all_emails env_accepting verifier_51 [0; 1]%nat)
  = Some "200"
  ∧ verification_at 7
      (verify_all_emails env_first_batch_fails verifier_51 [0; 1]%nat)
    = Some "BAD".
Proof.
  split.
  - apply (proj1 (submission_order_run_aligns env_accepting verifier_51) 50%nat
             (company_of "Emlak B" "info@gmail.com")); reflexivity.
  - apply (proj2 (submission_order_run_aligns env_first_batch_fails verifier_51)
             0%nat 7%nat RuntimeError); [reflexivity| |]; vm_compute; lia.
Defined.
